(** * stickerpicker: a shallow embedding of [sticker/lib/image.py],
    [sticker/lib/util.py] and [sticker/pack.py]

    Python values are modelled as follows.
    - [str] is [string], holding the UTF-8 encoding of the text. What the
      program splits at, searches for and filters by are ASCII characters,
      and no byte of a longer sequence is ASCII, so these operations, and
      the comparison of two texts, read on the encoding as Python has them
      on the text; [str.isdecimal] alone looks at the code points.
    - [bytes] is [list Byte.byte].
    - [int] is [Z]; a [float] is a binary64 number, finite (its value, in
      [Q]), infinite or not a number, and a division rounds its exact
      quotient to the nearest float.
    - a [dict] with string keys is a [gmap string _]; a [list] is a [list].
    - a call that can raise returns an [outcome]: the value returned, or the
      name of the exception class raised. *)

From Stdlib Require Import ZArith QArith Qpower Qabs Lia Lqa Ascii String List.
From Stdlib Require Strings.Byte.
From Stdlib Require Floats.SpecFloat.
From stdpp Require Import base option list gmap strings.

Local Open Scope string_scope.
Local Open Scope Z_scope.

(** ** Python runtime *)

Module Py.

Inductive outcome (A : Type) : Type :=
| Returned (a : A)
| Raised (exc : string).
Arguments Returned {A} a.
Arguments Raised {A} exc.

Definition bind {A B : Type} (m : outcome A) (k : A -> outcome B) : outcome B :=
  match m with
  | Returned a => k a
  | Raised e => Raised e
  end.

Definition is_returned {A : Type} (m : outcome A) : bool :=
  match m with
  | Returned _ => true
  | Raised _ => false
  end.

(** [try: m except (c1, c2, ...): handler]; exception classes are compared by
    name, the program catches no base class. *)
Definition try_except {A : Type} (m : outcome A) (caught : list string)
    (handler : outcome A) : outcome A :=
  match m with
  | Returned a => Returned a
  | Raised e => if existsb (String.eqb e) caught then handler else Raised e
  end.

Abbreviation bytes := (list Byte.byte).

(** [range(n)] *)
Definition range (n : Z) : list Z :=
  map Z.of_nat (seq 0 (Z.to_nat n)).

(** *** Floats

    A [float] is an IEEE 754 binary64 number; a finite one is given by its
    value, a rational. The sign of a zero is left out: the program divides
    by floats and truncates them, a division by either zero raises and
    [int] of either zero is 0. *)
Inductive float : Type :=
| Finite (q : Q)
| Infinity (negative : bool)
| NaN.

(** [2^e] *)
Definition pow2 (e : Z) : Q := (2 ^ e)%Q.

(** The binary exponent of [x], for [0 < x]: the [e] with
    [2^e <= x < 2^(e+1)]. *)
Definition ilog2 (x : Q) : Z :=
  let e := Z.log2 (Qnum x) - Z.log2 (Zpos (Qden x)) in
  if Qle_bool (pow2 e) x then e else e - 1.

(** The integer nearest to [x], the even one of the two when [x] is halfway. *)
Definition round_half_even (x : Q) : Z :=
  let n := Qnum x in
  let d := Zpos (Qden x) in
  let fl := n / d in
  let r2 := 2 * (n - fl * d) in
  if r2 <? d then fl
  else if d <? r2 then fl + 1
  else if Z.even fl then fl else fl + 1.

(** The float the machine arithmetic gives for the real number [x]: the
    nearest multiple of [2^(e-52)], where [e] is the exponent of [x] and at
    least -1022 (53 significant bits, fewer below [2^-1022]), the one with
    the even significand when [x] is halfway; infinity when that is [2^1024]
    or more. *)
Definition round64 (x : Q) : float :=
  if Qeq_bool x 0 then Finite 0
  else
    let e := Z.max (ilog2 (Qabs x)) (-1022) in
    let ulp := pow2 (e - 52) in
    let y := (inject_Z (round_half_even (x / ulp)) * ulp)%Q in
    if Qle_bool (pow2 1024) (Qabs y) then Infinity (Qnum x <? 0) else Finite y.

(** [float(n)], the conversion an int operand goes through when the other
    operand is a float. *)
Definition float_of_int (n : Z) : outcome float :=
  match round64 (inject_Z n) with
  | Finite q => Returned (Finite q)
  | _ => Raised "OverflowError"
  end.

(** [a / b] on two ints: the quotient, correctly rounded. *)
Definition int_truediv (a b : Z) : outcome float :=
  if b =? 0 then Raised "ZeroDivisionError"
  else match round64 (inject_Z a / inject_Z b) with
       | Finite q => Returned (Finite q)
       | _ => Raised "OverflowError"
       end.

(** [x / y] on two floats: only a zero divisor raises, a quotient too large
    is infinite. *)
Definition float_truediv (x y : float) : outcome float :=
  match y with
  | Finite b =>
      if Qeq_bool b 0 then Raised "ZeroDivisionError"
      else match x with
           | Finite a => Returned (round64 (a / b))
           | Infinity negative =>
               Returned (Infinity (xorb negative (Qnum b <? 0)))
           | NaN => Returned NaN
           end
  | Infinity _ =>
      match x with
      | Finite _ => Returned (Finite 0)
      | _ => Returned NaN
      end
  | NaN => Returned NaN
  end.

(** [a / y] for an int [a] and a float [y]. *)
Definition int_float_truediv (a : Z) (y : float) : outcome float :=
  bind (float_of_int a) (fun x => float_truediv x y).

(** [int(x)] on a float: truncation toward zero. *)
Definition int_of_float (x : float) : outcome Z :=
  match x with
  | Finite q => Returned (Z.quot (Qnum q) (Zpos (Qden q)))
  | Infinity _ => Raised "OverflowError"
  | NaN => Raised "ValueError"
  end.

(** [round(x)] on a float: to the nearest integer, ties to the even one. *)
Definition round (x : float) : outcome Z :=
  match x with
  | Finite q => Returned (round_half_even q)
  | Infinity _ => Raised "OverflowError"
  | NaN => Raised "ValueError"
  end.

(** *** Strings *)

(** [s.startswith(p)] *)
Definition startswith (s p : string) : bool := String.prefix p s.

(** [p in s] on strings: [p] occurs in [s]. *)
Fixpoint str_contains (s p : string) : bool :=
  String.prefix p s ||
  match s with
  | EmptyString => false
  | String _ s' => str_contains s' p
  end.

(** The value of a byte of the encoding. *)
Definition byte_value (b : ascii) : Z := Z.of_N (N_of_ascii b).

(** The six bits carried by a continuation byte [10xxxxxx]. *)
Definition continuation (b : ascii) : option Z :=
  let n := byte_value b in
  if (128 <=? n) && (n <? 192) then Some (n - 128) else None.

(** The code points of a text, read off its encoding: one to four bytes
    each, in the shortest form. [None] for bytes that encode no text. *)
Fixpoint code_points (s : string) : option (list Z) :=
  match s with
  | EmptyString => Some []
  | String b0 s1 =>
      let n0 := byte_value b0 in
      if n0 <? 128 then cs ← code_points s1; Some (n0 :: cs)
      else if n0 <? 192 then None
      else if n0 <? 224 then
        match s1 with
        | String b1 s2 =>
            n1 ← continuation b1;
            let c := (n0 - 192) * 64 + n1 in
            if c <? 128 then None else cs ← code_points s2; Some (c :: cs)
        | _ => None
        end
      else if n0 <? 240 then
        match s1 with
        | String b1 (String b2 s3) =>
            n1 ← continuation b1;
            n2 ← continuation b2;
            let c := ((n0 - 224) * 64 + n1) * 64 + n2 in
            if c <? 2048 then None else cs ← code_points s3; Some (c :: cs)
        | _ => None
        end
      else if n0 <? 248 then
        match s1 with
        | String b1 (String b2 (String b3 s4)) =>
            n1 ← continuation b1;
            n2 ← continuation b2;
            n3 ← continuation b3;
            let c := (((n0 - 240) * 64 + n1) * 64 + n2) * 64 + n3 in
            if (c <? 65536) || (1114111 <? c) then None
            else cs ← code_points s4; Some (c :: cs)
        | _ => None
        end
      else None
  end.

(** The decimal digits of Unicode (general category Nd), as ranges of code
    points with both ends included: the 660 characters on which
    [str.isdecimal] holds in CPython 3.11, whose database is Unicode 14.0.0.
    Another version of the database has a few more or fewer ranges after the
    first. *)
Definition decimal_ranges : list (Z * Z) :=
  [(48, 57); (1632, 1641); (1776, 1785); (1984, 1993); (2406, 2415);
   (2534, 2543); (2662, 2671); (2790, 2799); (2918, 2927); (3046, 3055);
   (3174, 3183); (3302, 3311); (3430, 3439); (3558, 3567); (3664, 3673);
   (3792, 3801); (3872, 3881); (4160, 4169); (4240, 4249); (6112, 6121);
   (6160, 6169); (6470, 6479); (6608, 6617); (6784, 6793); (6800, 6809);
   (6992, 7001); (7088, 7097); (7232, 7241); (7248, 7257); (42528, 42537);
   (43216, 43225); (43264, 43273); (43472, 43481); (43504, 43513);
   (43600, 43609); (44016, 44025); (65296, 65305); (66720, 66729);
   (68912, 68921); (69734, 69743); (69872, 69881); (69942, 69951);
   (70096, 70105); (70384, 70393); (70736, 70745); (70864, 70873);
   (71248, 71257); (71360, 71369); (71472, 71481); (71904, 71913);
   (72016, 72025); (72784, 72793); (73040, 73049); (73120, 73129);
   (92768, 92777); (92864, 92873); (93008, 93017); (120782, 120831);
   (123200, 123209); (123632, 123641); (125264, 125273); (130032, 130041)].

Definition is_decimal (c : Z) : bool :=
  existsb (fun r : Z * Z => (r.1 <=? c) && (c <=? r.2)) decimal_ranges.

(** [s.isdecimal()]: at least one character, and every character a decimal
    digit. *)
Definition isdecimal (s : string) : bool :=
  match code_points s with
  | Some (c :: cs) => forallb is_decimal (c :: cs)
  | _ => false
  end.

(** [s.split(sep, 1)] for a one-character separator: the text before the
    first separator and the text after it, or the string alone. *)
Fixpoint split_once (sep : ascii) (s : string) : list string :=
  match s with
  | EmptyString => [EmptyString]
  | String c s' =>
      if Ascii.eqb c sep then [EmptyString; s']
      else match split_once sep s' with
           | [a] => [String c a]
           | a :: rest => String c a :: rest
           | [] => []
           end
  end.

(** [s.split(sep)] for a one-character separator. *)
Fixpoint split (sep : ascii) (s : string) : list string :=
  match s with
  | EmptyString => [EmptyString]
  | String c s' =>
      if Ascii.eqb c sep then EmptyString :: split sep s'
      else match split sep s' with
           | a :: rest => String c a :: rest
           | [] => [String c EmptyString]
           end
  end.

(** [s.rfind(c)] for a character: the index of its last occurrence, or -1. *)
Fixpoint rfind (c : ascii) (s : string) : Z :=
  match s with
  | EmptyString => -1
  | String a s' =>
      let r := rfind c s' in
      if 0 <=? r then r + 1
      else if Ascii.eqb a c then 0 else -1
  end.

(** [s[:n]] and [s[n:]] for [0 <= n]. *)
Definition take_str (n : Z) (s : string) : string :=
  String.substring 0 (Z.to_nat n) s.

Definition drop_str (n : Z) (s : string) : string :=
  String.substring (Z.to_nat n) (String.length s - Z.to_nat n) s.

(** *** [os.path] (POSIX flavour) *)

(** The loop of [genericpath._splitext] that skips leading dots: is there a
    character other than the dot among [p[i:i+fuel]]? *)
Fixpoint has_non_dot (p : string) (i : nat) (fuel : nat) : bool :=
  match fuel with
  | O => false
  | S fuel' =>
      match String.get i p with
      | Some c => if Ascii.eqb c "." then has_non_dot p (S i) fuel' else true
      | None => true
      end
  end.

(** [os.path.splitext(p)] *)
Definition splitext (p : string) : string * string :=
  let sepIndex := rfind "/" p in
  let dotIndex := rfind "." p in
  if (sepIndex <? dotIndex)
     && has_non_dot p (Z.to_nat (sepIndex + 1)) (Z.to_nat (dotIndex - (sepIndex + 1)))
  then (take_str dotIndex p, drop_str dotIndex p)
  else (p, EmptyString).

Definition endswith_slash (s : string) : bool :=
  match String.get (String.length s - 1) s with
  | Some c => Ascii.eqb c "/"
  | None => false
  end.

(** [os.path.join(a, b)] *)
Definition path_join (a b : string) : string :=
  if startswith b "/" then b
  else if (String.eqb a EmptyString || endswith_slash a)%bool then a +:+ b
  else a +:+ "/" +:+ b.

(** [os.path.basename(p)]: what follows the last slash. *)
Definition basename (p : string) : string :=
  drop_str (rfind "/" p + 1) p.

(** [sorted(names)] on strings, which Python compares character by
    character; equal strings are the same string, so the order in which a
    sort places them does not show. *)
Fixpoint insert_sorted (x : string) (l : list string) : list string :=
  match l with
  | [] => [x]
  | y :: l' => if String.leb x y then x :: l else y :: insert_sorted x l'
  end.

Definition sorted (l : list string) : list string :=
  foldr insert_sorted [] l.

(** [x or y] for an optional string [x]: [y] when [x] is [None] or empty. *)
Definition or_else (x : option string) (y : string) : string :=
  match x with
  | Some s => if String.eqb s EmptyString then y else s
  | None => y
  end.

End Py.

Import Py.

#[global] Instance outcome_ret : MRet outcome := @Returned.
#[global] Instance outcome_bind : MBind outcome :=
  fun A B k m => Py.bind m k.

(** ** sticker/lib/image.py *)

Module Image.

Inductive ImageFormat : Set :=
| JPEG | GIF | PNG | APNG | WEBP | AVIF | TGS | UNKNOWN.

#[global] Instance ImageFormat_eq_dec : EqDecision ImageFormat.
Proof. solve_decision. Defined.

Definition from_mime_type (mime_type : string) : ImageFormat :=
  if String.eqb mime_type "image/png" then PNG
  else if String.eqb mime_type "application/x-tgsticker" then TGS
  else if String.eqb mime_type "image/webp" then WEBP
  else if String.eqb mime_type "image/jpeg" then JPEG
  else if String.eqb mime_type "image/gif" then GIF
  else if String.eqb mime_type "image/apng" then APNG
  else if String.eqb mime_type "image/avif" then AVIF
  else UNKNOWN.

Definition to_mime_type (self : ImageFormat) : string :=
  match self with
  | PNG => "image/png"
  | TGS => "application/x-tgsticker"
  | WEBP => "image/webp"
  | JPEG => "image/jpeg"
  | GIF => "image/gif"
  | APNG => "image/apng"
  | AVIF => "image/avif"
  | UNKNOWN => "image/unknown"
  end.

Definition from_extension (extension : string) : ImageFormat :=
  if String.eqb extension "png" then PNG
  else if String.eqb extension "tgs" then TGS
  else if String.eqb extension "webp" then WEBP
  else if String.eqb extension "jpg" then JPEG
  else if String.eqb extension "gif" then GIF
  else if String.eqb extension "apng" then APNG
  else if String.eqb extension "avif" then AVIF
  else UNKNOWN.

Definition to_extension (self : ImageFormat) : string :=
  match self with
  | PNG => "png"
  | TGS => "tgs"
  | WEBP => "webp"
  | JPEG => "jpg"
  | GIF => "gif"
  | APNG => "apng"
  | AVIF => "avif"
  | UNKNOWN => "unknown"
  end.

(** [PIL.Image.Image]: the mode, the size and the raw pixel data. *)
Record PILImage : Type := {
  im_mode : string;
  im_size : Z * Z;
  im_raw : bytes;
}.

(** The two ways the program calls [Image.save] with [format='WEBP']: with
    [save_all=True] (an animation made of the image followed by
    [append_images], every frame shown [duration] milliseconds, repeated
    [loop] times, 0 meaning forever), or with [quality] alone (a still). *)
Inductive WebpSave : Type :=
| SaveAll (first : PILImage) (append_images : list PILImage) (duration loop : Z)
| SaveStill (im : PILImage) (quality : Z).

(** [rlottie_python.LottieAnimation], seen through the four methods the
    program calls; the frame rate is a finite float, given by its value. *)
Record LottieAnimation : Type := {
  lottie_animation_get_totalframe : Z;
  lottie_animation_get_size : Z * Z;
  lottie_animation_get_framerate : Q;
  lottie_animation_render : Z -> bytes;
}.

Record GenericImage : Type := {
  data : bytes;
  width : Z;
  height : Z;
  format : ImageFormat;
}.

(** [GenericImage.to_thumbnail] *)
Definition to_thumbnail (self : GenericImage) : outcome GenericImage :=
  dims ←
    (if (256 <? width self) || (256 <? height self) then
       if height self <? width self then
         d ← int_truediv (width self) 256;
         q ← int_float_truediv (height self) d;
         scaled ← int_of_float q;
         Returned (256, scaled)
       else
         d ← int_truediv (height self) 256;
         q ← int_float_truediv (width self) d;
         scaled ← int_of_float q;
         Returned (scaled, 256)
     else Returned (width self, height self));
  Returned {| data := data self; width := dims.1; height := dims.2;
              format := format self |}.

(** Objects live in a store; a method receives the reference [self], and
    the constructor call at the end of [to_thumbnail] allocates. A reference
    held by the caller is always bound, the first branch below is for the
    references that are not. *)
Abbreviation heap := (gmap positive GenericImage).

Definition new_GenericImage (σ : heap) (o : GenericImage) : positive * heap :=
  let l := fresh (dom σ) in (l, <[l := o]> σ).

Definition to_thumbnail_at (σ : heap) (self : positive)
    : outcome (positive * heap) :=
  match σ !! self with
  | None => Raised "NameError"
  | Some o => r ← to_thumbnail o; Returned (new_GenericImage σ r)
  end.

(** [frames[0]] *)
Definition first_frame (frames : list PILImage) : outcome PILImage :=
  match frames with
  | [] => Raised "IndexError"
  | f :: _ => Returned f
  end.

Section Transcoder.

(** The collaborators: rlottie's loader, and Pillow's [Image.frombytes],
    [Image.open(..).convert("RGBA")] and [Image.save]. *)
Variable LottieAnimation_from_tgs : bytes -> outcome LottieAnimation.
Variable Image_frombytes : string -> Z * Z -> bytes -> outcome PILImage.
Variable Image_save_webp : WebpSave -> outcome bytes.
Variable Image_open_rgba : bytes -> outcome PILImage.
Variable Image_save_as : PILImage -> string -> outcome bytes.

(** The body of [for i in range(frame_count)], over the indices left. *)
Fixpoint render_frames (animation : LottieAnimation) (size : Z * Z)
    (indices : list Z) (frames : list PILImage) : outcome (list PILImage) :=
  match indices with
  | [] => Returned frames
  | i :: rest =>
      let surface := lottie_animation_render animation i in
      img ← Image_frombytes "RGBA" size surface;
      render_frames animation size rest (frames ++ [img])
  end.

Definition convert_tgs_to_webp (data : bytes) : outcome bytes :=
  animation ← LottieAnimation_from_tgs data;
  let frame_count := lottie_animation_get_totalframe animation in
  let size := lottie_animation_get_size animation in
  frames ← render_frames animation size (range frame_count) [];
  if 1 <? Z.of_nat (length frames) then
    first ← first_frame frames;
    q ← int_float_truediv 1000
          (Finite (lottie_animation_get_framerate animation));
    duration ← int_of_float q;
    Image_save_webp (SaveAll first (tail frames) duration 0)
  else
    first ← first_frame frames;
    Image_save_webp (SaveStill first 95).

(** [GenericImage.from_bytes] for a format other than TGS. *)
Definition from_bytes_raster (data : bytes) (format : ImageFormat)
    : outcome GenericImage :=
  image ← Image_open_rgba data;
  new_file ← Image_save_as image (to_extension format);
  Returned {| data := new_file; width := (im_size image).1;
              height := (im_size image).2; format := format |}.

(** [GenericImage.from_bytes]; the call of itself with [ImageFormat.WEBP]
    takes the raster path. *)
Definition from_bytes (data : bytes) (format : ImageFormat)
    : outcome GenericImage :=
  if decide (format = TGS) then
    converted_data ← convert_tgs_to_webp data;
    from_bytes_raster converted_data WEBP
  else from_bytes_raster data format.

End Transcoder.

End Image.

Import Image.

(** ** sticker/lib/util.py *)

Module Util.

(** What [json.load] returns and [json.dump] accepts. *)
#[warnings="-register-all"]
Inductive json : Type :=
| JNull
| JBool (b : bool)
| JInt (n : Z)
| JFloat (x : Q)
| JStr (s : string)
| JArr (l : list json)
| JObj (o : gmap string json).

(** A text file: a JSON document, or text that is not one. *)
Inductive file : Type :=
| NotJson
| JsonText (j : json).

(** The files, the writes made so far (latest last) and the lines printed
    by [main] and by [util]; what [upload_sticker] prints while it works is
    not recorded. *)
Record world : Type := {
  files : gmap string file;
  written : list (string * json);
  stdout : list string;
}.

(** [with open_utf8(path) as f: return json.load(f)] *)
Definition json_load (w : world) (path : string) : outcome json :=
  match files w !! path with
  | None => Raised "FileNotFoundError"
  | Some NotJson => Raised "JSONDecodeError"
  | Some (JsonText j) => Returned j
  end.

(** [with open_utf8(path, "w") as f: json.dump(j, f, ...)] *)
Definition json_dump (w : world) (path : string) (j : json) : world :=
  {| files := <[path := JsonText j]> (files w);
     written := written w ++ [(path, j)];
     stdout := stdout w |}.

Definition print (w : world) (line : string) : world :=
  {| files := files w; written := written w; stdout := stdout w ++ [line] |}.

(** [item == name] for a string [name]. *)
Definition eq_str (name : string) (item : json) : bool :=
  match item with
  | JStr s => String.eqb s name
  | _ => false
  end.

(** [name in container] for a string [name]. *)
Definition contains (container : json) (name : string) : outcome bool :=
  match container with
  | JObj o => Returned (bool_decide (is_Some (o !! name)))
  | JArr l => Returned (existsb (eq_str name) l)
  | JStr s => Returned (str_contains s name)
  | _ => Raised "TypeError"
  end.

(** [container[key]] for a string [key]. *)
Definition getitem (container : json) (key : string) : outcome json :=
  match container with
  | JObj o =>
      match o !! key with
      | Some v => Returned v
      | None => Raised "KeyError"
      end
  | _ => Raised "TypeError"
  end.

(** [container[key] = v] for a string [key]. *)
Definition setitem (container : json) (key : string) (v : json) : outcome json :=
  match container with
  | JObj o => Returned (JObj (<[key := v]> o))
  | _ => Raised "TypeError"
  end.

(** [container.append(name)] *)
Definition append (container : json) (name : string) : outcome json :=
  match container with
  | JArr l => Returned (JArr (l ++ [JStr name]))
  | _ => Raised "AttributeError"
  end.

(** The truth value of [matrix.homeserver_url]. *)
Definition truthy (url : option string) : bool :=
  match url with
  | None => false
  | Some s => negb (String.eqb s EmptyString)
  end.

Definition load_index_data (w : world) (index_path : string) : outcome json :=
  try_except (json_load w index_path)
    ["FileNotFoundError"; "JSONDecodeError"]
    (Returned (JObj {["packs" := JArr []]})).

Definition add_name_to_packs (w : world) (index_data : json)
    (name index_path : string) : world * outcome unit :=
  match
    packs ← getitem index_data "packs";
    present ← contains packs name;
    if negb present then
      packs ← getitem index_data "packs";
      packs ← append packs name;
      index_data ← setitem index_data "packs" packs;
      Returned (Some index_data)
    else Returned None
  with
  | Raised e => (w, Raised e)
  | Returned None => (w, Returned ())
  | Returned (Some index_data) =>
      let w := json_dump w index_path index_data in
      (print w ("Added " +:+ name +:+ " to " +:+ index_path), Returned ())
  end.

Section Index.

(** The module global [matrix.homeserver_url]. *)
Variable homeserver_url : option string.

Definition add_to_index (w : world) (name output_dir : string)
    : world * outcome unit :=
  let index_path := path_join output_dir "index.json" in
  match
    index_data ← load_index_data w index_path;
    present ← contains index_data "homeserver_url";
    if negb present && truthy homeserver_url then
      setitem index_data "homeserver_url" (JStr (default EmptyString homeserver_url))
    else Returned index_data
  with
  | Raised e => (w, Raised e)
  | Returned index_data => add_name_to_packs w index_data name index_path
  end.

End Index.

(** [mxc.split('/')[-1]] *)
Definition last_segment (mxc : string) : string :=
  List.last (split "/" mxc) EmptyString.

Definition make_sticker (mxc : string) (width height size : Z)
    (body mimetype : string) : gmap string json :=
  {[ "id" := JStr ("scalar-" +:+ last_segment mxc);
     "body" := JStr body;
     "url" := JStr mxc;
     "info" := JObj
       {[ "w" := JInt width;
          "h" := JInt height;
          "size" := JInt size;
          "mimetype" := JStr mimetype;
          "thumbnail_url" := JStr mxc;
          "thumbnail_info" := JObj
            {[ "w" := JInt width;
               "h" := JInt height;
               "size" := JInt size;
               "mimetype" := JStr mimetype ]} ]};
     "msgtype" := JStr "m.sticker" ]}.

End Util.

Import Util.

(** ** sticker/pack.py *)

Module Pack.

(** [string.ascii_letters + string.digits + "_-/.#"] *)
Definition allowed_chars : string :=
  "abcdefghijklmnopqrstuvwxyzABCDEFGHIJKLMNOPQRSTUVWXYZ0123456789_-/.#".

(** [name.translate({ord(" "): ord("_")})] *)
Fixpoint translate_spaces (name : string) : string :=
  match name with
  | EmptyString => EmptyString
  | String c rest =>
      String (if Ascii.eqb c " " then "_"%char else c) (translate_spaces rest)
  end.

(** ["".join(filter(pred, s))] *)
Fixpoint filter_chars (pred : ascii -> bool) (s : string) : string :=
  match s with
  | EmptyString => EmptyString
  | String c rest =>
      if pred c then String c (filter_chars pred rest) else filter_chars pred rest
  end.

Definition convert_name (name : string) : string :=
  filter_chars (fun char => str_contains allowed_chars (String char EmptyString))
    (translate_spaces name).

(** One call of [matrix.upload(data, mimetype, filename)]. *)
Record UploadCall : Type := {
  up_data : bytes;
  up_mimetype : string;
  up_filename : string;
}.

(** The display name: the file name without its extension, and without its
    ["number-"] prefix when it has one. *)
Definition display_name (file : string) : string :=
  let name := (splitext file).1 in
  let name_split := split_once "-" name in
  match name_split with
  | [prefix; rest] => if isdecimal prefix then rest else name
  | _ => name
  end.

(** [f"sha256:{sha256(image_data).hexdigest()}"] *)
Definition fingerprint (hexdigest : bytes -> string) (image_data : bytes) : string :=
  "sha256:" +:+ hexdigest image_data.

Section Synchronizer.

(** The collaborators: libmagic when it is installed, [mimetypes.guess_type],
    the file system, SHA-256, [matrix.upload], and those of [image.py]. *)
Variable magic : option (string -> string).
Variable guess_type : string -> option string.
Variable isfile : string -> bool.
Variable read_binary : string -> outcome bytes.
Variable sha256_hexdigest : bytes -> string.
Variable upload : bytes -> string -> string -> outcome string.
Variable LottieAnimation_from_tgs : bytes -> outcome LottieAnimation.
Variable Image_frombytes : string -> Z * Z -> bytes -> outcome PILImage.
Variable Image_save_webp : WebpSave -> outcome bytes.
Variable Image_open_rgba : bytes -> outcome PILImage.
Variable Image_save_as : PILImage -> string -> outcome bytes.

(** [magic.from_file(path, mime=True)], or the guess from the file name. *)
Definition detect_mime (file path : string) : option string :=
  match magic with
  | Some from_file => Some (from_file path)
  | None => guess_type file
  end.

(** [not mime or not mime.startswith("image/")] *)
Definition not_an_image (mime : option string) : bool :=
  match mime with
  | None => true
  | Some m => String.eqb m EmptyString || negb (startswith m "image/")
  end.

(** [upload_sticker]: the calls made to [matrix.upload], and the result.
    The progress messages it prints are left out. *)
Definition upload_sticker (file directory : string)
    (old_stickers : gmap string (gmap string json))
    : list UploadCall * outcome (option (gmap string json)) :=
  if startswith file "." then ([], Returned None)
  else
    let path := path_join directory file in
    if negb (isfile path) then ([], Returned None)
    else
      let mime := detect_mime file path in
      if not_an_image mime then ([], Returned None)
      else
        match read_binary path with
        | Raised _ => ([], Returned None)
        | Returned image_data =>
            let name := display_name file in
            let sticker_id := fingerprint sha256_hexdigest image_data in
            match old_stickers !! sticker_id with
            | Some old =>
                ([], Returned (Some (<["body" := JStr name]> old)))
            | None =>
                let image_format := from_mime_type (default EmptyString mime) in
                match
                  from_bytes LottieAnimation_from_tgs Image_frombytes
                    Image_save_webp Image_open_rgba Image_save_as
                    image_data image_format
                with
                | Raised e => ([], Raised e)
                | Returned generic_image =>
                    let call :=
                      {| up_data := data generic_image;
                         up_mimetype := to_mime_type image_format;
                         up_filename :=
                           file +:+ "." +:+ to_extension image_format |} in
                    match
                      upload (up_data call) (up_mimetype call) (up_filename call)
                    with
                    | Raised e => ([call], Raised e)
                    | Returned mxc =>
                        let sticker :=
                          make_sticker mxc (width generic_image)
                            (height generic_image)
                            (Z.of_nat (length (data generic_image)))
                            name "image/png" in
                        ([call], Returned (Some (<["id" := JStr sticker_id]> sticker)))
                    end
                end
            end
        end.

(** The parsed command line. *)
Record Args : Type := {
  args_config : string;
  args_title : option string;
  args_id : option string;
  args_add_to_index : option string;
  args_path : string;
}.

(** [{sticker["id"]: sticker for sticker in items}], over the items left.
    A sticker that is no object cannot be indexed by ["id"]; a list or an
    object as id cannot be hashed; an id that is no string is a key no
    fingerprint is equal to, and is not kept. *)
Fixpoint index_by_id (items : list json)
    (acc : gmap string (gmap string json))
    : outcome (gmap string (gmap string json)) :=
  match items with
  | [] => Returned acc
  | sticker :: rest =>
      key ← getitem sticker "id";
      match key, sticker with
      | JStr k, JObj o => index_by_id rest (<[k := o]> acc)
      | JArr _, _ | JObj _, _ => Raised "TypeError"
      | _, _ => index_by_id rest acc
      end
  end.

(** The same comprehension over whatever is under ["stickers"]: a string
    iterates over its characters and an object over its keys, none of which
    can be indexed by ["id"]. *)
Definition old_stickers_of (stickers : json)
    : outcome (gmap string (gmap string json)) :=
  match stickers with
  | JArr l => index_by_id l ∅
  | JStr s => if String.eqb s EmptyString then Returned ∅ else Raised "TypeError"
  | JObj o => if Nat.eqb (size o) 0 then Returned ∅ else Raised "TypeError"
  | _ => Raised "TypeError"
  end.

(** More collaborators: [matrix.load_config], which returns nothing and
    leaves [matrix.homeserver_url] set to the value given here;
    [os.path.abspath]; [os.listdir]; and [str()] on a value that is no
    string, for the f-string that names the pack file. *)
Variable load_config : string -> outcome (option string).
Variable abspath : string -> string.
Variable listdir : string -> outcome (list string).
Variable repr : json -> string.

Definition format_value (j : json) : string :=
  match j with
  | JStr s => s
  | _ => repr j
  end.

(** The loop of [main] over the files left: the upload calls made, and the
    stickers collected, or the exception that ended it. *)
Fixpoint upload_all (files : list string) (directory : string)
    (old_stickers : gmap string (gmap string json)) (stickers : list json)
    : list UploadCall * outcome (list json) :=
  match files with
  | [] => ([], Returned stickers)
  | file :: rest =>
      let '(calls, result) := upload_sticker file directory old_stickers in
      match result with
      | Raised e => (calls, Raised e)
      | Returned sticker =>
          let stickers :=
            match sticker with
            | Some s =>
                if Nat.eqb (size s) 0 then stickers
                else (stickers ++ [JObj s])%list
            | None => stickers
            end in
          let '(more, result) := upload_all rest directory old_stickers stickers in
          ((calls ++ more)%list, result)
      end
  end.

(** The first part of [main]: the pack to fill and the stickers of the
    previous run. *)
Definition load_pack (w : world) (args : Args)
    : world * outcome (json * gmap string (gmap string json)) :=
  let dirname := basename (abspath (args_path args)) in
  let meta_path := path_join (args_path args) "pack.json" in
  match json_load w meta_path with
  | Raised e =>
      if String.eqb e "FileNotFoundError" then
        (w, Returned
              (JObj {[ "title" := JStr (or_else (args_title args) dirname);
                       "id" := JStr (or_else (args_id args) (convert_name dirname));
                       "stickers" := JArr [] ]},
               ∅))
      else (w, Raised e)
  | Returned pack =>
      let w := print w ("Loaded existing pack meta from " +:+ meta_path) in
      (w,
       stickers ← getitem pack "stickers";
       old_stickers ← old_stickers_of stickers;
       pack ← setitem pack "stickers" (JArr []);
       Returned (pack, old_stickers))
  end.

(** The last part of [main]: the copy into the picker directory and its
    index, when [--add-to-index] is given. *)
Definition copy_to_index (homeserver_url : option string) (w : world)
    (args : Args) (pack : json) : world * outcome unit :=
  if truthy (args_add_to_index args) then
    let dir := default EmptyString (args_add_to_index args) in
    match getitem pack "id" with
    | Raised e => (w, Raised e)
    | Returned pack_id =>
        let picker_file_name := format_value pack_id +:+ ".json" in
        let picker_pack_path := path_join dir picker_file_name in
        let w := json_dump w picker_pack_path pack in
        let w := print w ("Copied pack to " +:+ picker_pack_path) in
        add_to_index homeserver_url w picker_file_name dir
    end
  else (w, Returned ()).

(** [main]: the world it leaves, the upload calls it made, and how it ended. *)
Definition main (w : world) (args : Args)
    : world * list UploadCall * outcome unit :=
  match load_config (args_config args) with
  | Raised e => (w, [], Raised e)
  | Returned homeserver_url =>
      let meta_path := path_join (args_path args) "pack.json" in
      match load_pack w args with
      | (w, Raised e) => (w, [], Raised e)
      | (w, Returned (pack, old_stickers)) =>
          match listdir (args_path args) with
          | Raised e => (w, [], Raised e)
          | Returned names =>
              match upload_all (sorted names) (args_path args) old_stickers [] with
              | (calls, Raised e) => (w, calls, Raised e)
              | (calls, Returned stickers) =>
                  match setitem pack "stickers" (JArr stickers) with
                  | Raised e => (w, calls, Raised e)
                  | Returned pack =>
                      let w := json_dump w meta_path pack in
                      let w := print w ("Wrote pack to " +:+ meta_path) in
                      let '(w, result) := copy_to_index homeserver_url w args pack in
                      (w, calls, result)
                  end
              end
          end
      end
  end.

End Synchronizer.

End Pack.

Import Pack.

(** * Definitions used by the statements *)

(** The strings matched by [from_mime_type] and by [from_extension]. *)
Definition mime_types : list string :=
  ["image/png"; "application/x-tgsticker"; "image/webp"; "image/jpeg";
   "image/gif"; "image/apng"; "image/avif"].

Definition extensions : list string :=
  ["png"; "tgs"; "webp"; "jpg"; "gif"; "apng"; "avif"].

(** The width and height [to_thumbnail] arrives at, in integer arithmetic
    ([to_thumbnail_returns] relates it to the code). *)
Definition thumbnail_size (w h : Z) : Z * Z :=
  if (256 <? w) || (256 <? h) then
    if h <? w then (256, Z.quot (h * 256) w) else (Z.quot (w * 256) h, 256)
  else (w, h).

(** [c in s] for a character. *)
Fixpoint occurs (c : ascii) (s : string) : bool :=
  match s with
  | EmptyString => false
  | String a s' => Ascii.eqb a c || occurs c s'
  end.

(** Is some character of [s] not the dot? *)
Fixpoint has_other_than_dot (s : string) : bool :=
  match s with
  | EmptyString => false
  | String a s' => negb (Ascii.eqb a ".") || has_other_than_dot s'
  end.

(** [frames] are the images of the frames [indices] of [animation], in that
    order, each made by [frombytes] from what rlottie rendered. *)
Definition rendered (frombytes : string -> Z * Z -> bytes -> outcome PILImage)
    (animation : LottieAnimation) (indices : list Z)
    (frames : list PILImage) : Prop :=
  Forall2
    (fun i img =>
       frombytes "RGBA" (lottie_animation_get_size animation)
         (lottie_animation_render animation i) = Returned img)
    indices frames.

(** Collaborators for the examples: a loader that answers [animation]
    whatever the bytes, [Image.frombytes] on a buffer of the right size, and
    an encoder whose output shows what it was asked (one byte per millisecond
    of frame duration for an animation, nothing for a still). *)
Definition loads (animation : LottieAnimation) (_ : bytes)
    : outcome LottieAnimation :=
  Returned animation.

Definition frombytes_ok (mode : string) (size : Z * Z) (raw : bytes)
    : outcome PILImage :=
  Returned {| im_mode := mode; im_size := size; im_raw := raw |}.

Definition save_webp_trace (request : WebpSave) : outcome bytes :=
  match request with
  | SaveAll _ _ duration _ => Returned (repeat Byte.x00 (Z.to_nat duration))
  | SaveStill _ _ => Returned []
  end.

(** The float that a number of [SpecFloat], the Standard Library's
    specification of binary64 arithmetic, stands for; and the numbers the
    rounding of this file is compared with that specification on: integers
    small and large, the smallest and the largest floats, and floats between
    them. *)
Definition float_of_spec (x : SpecFloat.spec_float) : float :=
  match x with
  | SpecFloat.S754_zero _ => Finite 0
  | SpecFloat.S754_infinity negative => Infinity negative
  | SpecFloat.S754_nan => NaN
  | SpecFloat.S754_finite negative m e =>
      Finite ((if negative then -1 else 1) * inject_Z (Zpos m) * pow2 e)%Q
  end.

Definition same_float (x y : float) : bool :=
  match x, y with
  | Finite a, Finite b => Qeq_bool a b
  | Infinity negative, Infinity negative' => Bool.eqb negative negative'
  | NaN, NaN => true
  | _, _ => false
  end.

Definition spec_of_int (n : Z) : SpecFloat.spec_float :=
  SpecFloat.binary_normalize 53 1024 n 0 (n <? 0).

Definition spec_samples : list SpecFloat.spec_float :=
  map spec_of_int
    [1; 2; 3; 5; 7; 10; 60; 255; 256; 257; 1000; 1001; 4097; 2 ^ 47 + 255;
     255 * 2 ^ 39 + 254; 2 ^ 52 + 1; 2 ^ 53 - 1; 3 ^ 30; 10 ^ 15 + 7; -3;
     -1000; - (2 ^ 50 + 3)]
  ++ [SpecFloat.S754_finite false 1 (-1074);
      SpecFloat.S754_finite false 3 (-1074);
      SpecFloat.S754_finite false 5 (-1074);
      SpecFloat.S754_finite false (2 ^ 52) (-1074);
      SpecFloat.S754_finite false (2 ^ 53 - 1) (-1074);
      SpecFloat.S754_finite false (2 ^ 52 + 7) (-1073);
      SpecFloat.S754_finite true (2 ^ 52 + 12345) (-500);
      SpecFloat.S754_finite false (2 ^ 52) (-52);
      SpecFloat.S754_finite false (3602879701896397) (-51);
      SpecFloat.S754_finite false (2 ^ 52 + 99) 400;
      SpecFloat.S754_finite false (2 ^ 53 - 1) 971]%positive.

(** [x / y] on two floats of [SpecFloat] that are not zero, as this file
    has it and as [SpecFloat] has it. *)
Definition division_agrees (x y : SpecFloat.spec_float) : bool :=
  match float_truediv (float_of_spec x) (float_of_spec y) with
  | Returned q => same_float q (float_of_spec (SpecFloat.SFdiv 53 1024 x y))
  | Raised _ => false
  end.

(** [int(1000 / R)], the duration the transcoder computes from the frame
    rate [R]. *)
Definition frame_duration (R : Q) : outcome Z :=
  q ← int_float_truediv 1000 (Finite R); int_of_float q.

Definition two_frames_60fps : LottieAnimation :=
  {| lottie_animation_get_totalframe := 2;
     lottie_animation_get_size := (1, 1);
     lottie_animation_get_framerate := inject_Z 60;
     lottie_animation_render := fun _ => [] |}.

Definition no_frames : LottieAnimation :=
  {| lottie_animation_get_totalframe := 0;
     lottie_animation_get_size := (1, 1);
     lottie_animation_get_framerate := inject_Z 60;
     lottie_animation_render := fun _ => [] |}.

Definition blank_frame : PILImage :=
  {| im_mode := "RGBA"; im_size := (1, 1); im_raw := [] |}.

(** How many items of [l] are the string [name]. *)
Definition occurrences (name : string) (l : list json) : nat :=
  length (List.filter (eq_str name) l).

(** The list under ["packs"] in the index file at [path], when the file is a
    JSON object that has one. *)
Definition packs_of (w : world) (path : string) : option (list json) :=
  match files w !! path with
  | Some (JsonText (JObj o)) =>
      match o !! "packs" with
      | Some (JArr l) => Some l
      | _ => None
      end
  | _ => None
  end.

(** The index file is missing, is not JSON, or is an object whose ["packs"]
    list has [name] at most once. *)
Definition index_usable (name : string) (w : world) (path : string) : Prop :=
  files w !! path = None \/
  files w !! path = Some NotJson \/
  exists l : list json, packs_of w path = Some l /\ (occurrences name l <= 1)%nat.

(** The value has no ["packs"] entry: it is no object, or an object without
    the key. *)
Definition lacks_packs (j : json) : Prop :=
  forall o : gmap string json, j = JObj o -> o !! "packs" = None.

Definition is_list (j : json) : Prop := exists l : list json, j = JArr l.

(** The index dictionary after the [homeserver_url] step of [add_to_index]. *)
Definition with_homeserver (homeserver_url : option string)
    (o : gmap string json) : gmap string json :=
  if negb (bool_decide (is_Some (o !! "homeserver_url"))) && truthy homeserver_url
  then <["homeserver_url" := JStr (default EmptyString homeserver_url)]> o
  else o.

(** The exceptions [add_to_index] lets through on an index it cannot use. *)
Definition index_errors : list string :=
  ["KeyError"; "TypeError"; "AttributeError"].

(** A world whose only file is [packs/index.json], holding [j]; and one
    with no file. *)
Definition index_holding (j : json) : world :=
  {| files := {["packs/index.json" := JsonText j]}; written := []; stdout := [] |}.

Definition no_index : world :=
  {| files := ∅; written := []; stdout := [] |}.

(** The manifest entry of bytes uploaded earlier under the name [a.png], and
    an upload collaborator that fails whenever it is called. *)
Definition previous_entry : gmap string json :=
  <["id" := JStr "sha256:H"]>
    (make_sticker "mxc://example.org/abc" 10 10 1 "a" "image/png").

Definition never_uploads (_ : bytes) (_ _ : string) : outcome string :=
  Raised "UploadError".

Definition two_frames_rate_0 : LottieAnimation :=
  {| lottie_animation_get_totalframe := 2;
     lottie_animation_get_size := (1, 1);
     lottie_animation_get_framerate := 0;
     lottie_animation_render := fun _ => [] |}.

(** [Image.frombytes] on a buffer that is too short. *)
Definition frombytes_short (_ : string) (_ : Z * Z) (_ : bytes)
    : outcome PILImage :=
  Raised "ValueError".

(** Pillow collaborators for the examples: every payload opens as a 2 by 3
    image, and saving gives one byte. *)
Definition opens_2x3 (_ : bytes) : outcome PILImage :=
  Returned {| im_mode := "RGBA"; im_size := (2, 3); im_raw := [] |}.

Definition saves_one_byte (_ : PILImage) (_ : string) : outcome bytes :=
  Returned [Byte.x2a].

(** [char in allowed_chars], the test [convert_name] filters with. *)
Definition allowed (char : ascii) : bool :=
  str_contains allowed_chars (String char EmptyString).

(** The synchronizer in a directory where every file is a readable PNG of
    one byte with the digest [H], with the upload and the decoder given. *)
Definition example_run (upload : bytes -> string -> string -> outcome string)
    (open_rgba : bytes -> outcome PILImage) (file : string)
    (old_stickers : gmap string (gmap string json))
    : list UploadCall * outcome (option (gmap string json)) :=
  upload_sticker None (fun _ => Some "image/png") (fun _ => true)
    (fun _ => Returned [Byte.x01]) (fun _ => "H") upload
    (loads no_frames) frombytes_ok save_webp_trace open_rgba saves_one_byte
    file "pack" old_stickers.

Definition uploads_new (_ : bytes) (_ _ : string) : outcome string :=
  Returned "mxc://example.org/new".

Definition opens_nothing (_ : bytes) : outcome PILImage :=
  Raised "UnidentifiedImageError".

(** Every entry of the lookup has its key as ["id"]. *)
Definition keyed_by_id (old_stickers : gmap string (gmap string json)) : Prop :=
  forall (k : string) (o : gmap string json),
    old_stickers !! k = Some o -> o !! "id" = Some (JStr k).

(** The item is an object whose ["id"] is the string [k]. *)
Definition has_id (k : string) (item : json) : Prop :=
  exists o : gmap string json, item = JObj o /\ o !! "id" = Some (JStr k).

(** What a loop that calls [step] on each file, in order, collects when no
    call raises: the upload calls made and the entries returned. *)
Inductive collected
    (step : string -> list UploadCall * outcome (option (gmap string json)))
    : list string -> list UploadCall -> list json -> Prop :=
| collected_nil : collected step [] [] []
| collected_skip (file : string) (files : list string)
    (calls more : list UploadCall) (news : list json) :
    step file = (calls, Returned None) ->
    collected step files more news ->
    collected step (file :: files) (calls ++ more) news
| collected_keep (file : string) (files : list string)
    (calls more : list UploadCall) (s : gmap string json) (news : list json) :
    step file = (calls, Returned (Some s)) ->
    collected step files more news ->
    collected step (file :: files) (calls ++ more) (JObj s :: news).

(** The two entries are objects with the same string as ["id"] and the same
    ["body"]. *)
Definition same_id_body (a b : json) : Prop :=
  exists (oa ob : gmap string json) (k : string),
    a = JObj oa /\ b = JObj ob /\
    oa !! "id" = Some (JStr k) /\ ob !! "id" = Some (JStr k) /\
    oa !! "body" = ob !! "body".

(** The file passes the filters of [upload_sticker] and reaches the
    fingerprint step with the bytes [image_data]. *)
Definition reaches (magic : option (string -> string))
    (guess_type : string -> option string) (isfile : string -> bool)
    (read_binary : string -> outcome bytes)
    (file directory : string) (image_data : bytes) : Prop :=
  startswith file "." = false /\
  isfile (path_join directory file) = true /\
  not_an_image (detect_mime magic guess_type file (path_join directory file))
    = false /\
  read_binary (path_join directory file) = Returned image_data.

(** The loop of [main] in the directory of [example_run]. *)
Definition example_loop (upload : bytes -> string -> string -> outcome string)
    (files : list string) (old_stickers : gmap string (gmap string json))
    : list UploadCall * outcome (list json) :=
  upload_all None (fun _ => Some "image/png") (fun _ => true)
    (fun _ => Returned [Byte.x01]) (fun _ => "H") upload
    (loads no_frames) frombytes_ok save_webp_trace opens_2x3 saves_one_byte
    files "pack" old_stickers [].

(** A run in the directory of [example_run], named ["my pack"], with the
    upload and the listing given; no configuration, and a home directory for
    [os.path.abspath]. *)
Definition example_args : Args :=
  {| args_config := "config.json"; args_title := None; args_id := None;
     args_add_to_index := None; args_path := "my pack" |}.

Definition example_main (upload : bytes -> string -> string -> outcome string)
    (listdir : string -> outcome (list string)) (w : world)
    : world * list UploadCall * outcome unit :=
  main None (fun _ => Some "image/png") (fun _ => true)
    (fun _ => Returned [Byte.x01]) (fun _ => "H") upload
    (loads no_frames) frombytes_ok save_webp_trace opens_2x3 saves_one_byte
    (fun _ => Returned None) (fun p => "/home/user/" +:+ p) listdir
    (fun _ => "?") w example_args.

Definition lists_b_a (_ : string) : outcome (list string) :=
  Returned ["b.png"; "a.png"].

Definition lists_a_b (_ : string) : outcome (list string) :=
  Returned ["a.png"; "b.png"].

(** A world whose only file is the manifest of ["my pack"]. *)
Definition manifest_holding (f : file) : world :=
  {| files := {["my pack/pack.json" := f]}; written := []; stdout := [] |}.

Definition titled_pack : gmap string json :=
  {[ "title" := JStr "Cats"; "id" := JStr "cats"; "stickers" := JArr [] ]}.


(** Each string of the list is below all the strings after it. *)
Fixpoint ordered (l : list string) : Prop :=
  match l with
  | [] => True
  | x :: l' => (forall y, y ∈ l' -> String.leb x y = true) /\ ordered l'
  end.

(** * Properties *)

(** ** Format registry *)

Ltac case_eqb s :=
  repeat match goal with
  | |- context [String.eqb s ?lit] =>
      destruct (String.eqb_spec s lit) as [->|?]
  end.

(** A string literal is none of the literals of a table. *)
Ltac not_in_literals :=
  unfold mime_types, extensions;
  rewrite !elem_of_cons, elem_of_nil; intuition discriminate.

Lemma from_mime_type_unknown (m : string) :
  from_mime_type m = UNKNOWN <-> m ∉ mime_types.
Proof.
  unfold from_mime_type, mime_types.
  case_eqb m; rewrite !elem_of_cons, elem_of_nil;
    (split; [intros H; try discriminate H | intros H; try reflexivity]);
    tauto.
Qed.

Lemma from_extension_unknown (e : string) :
  from_extension e = UNKNOWN <-> e ∉ extensions.
Proof.
  unfold from_extension, extensions.
  case_eqb e; rewrite !elem_of_cons, elem_of_nil;
    (split; [intros H; try discriminate H | intros H; try reflexivity]);
    tauto.
Qed.

(** C3, as the code has it: the four lookups are total functions; the two
    [from_*] lookups answer [UNKNOWN] exactly on the strings that are not in
    their table; on [UNKNOWN], [to_mime_type] answers ["image/unknown"] and
    [to_extension] answers ["unknown"]. *)
Theorem format_lookups_total :
  (forall m : string, from_mime_type m = UNKNOWN <-> m ∉ mime_types) /\
  (forall e : string, from_extension e = UNKNOWN <-> e ∉ extensions) /\
  to_mime_type UNKNOWN = "image/unknown" /\
  to_extension UNKNOWN = "unknown".
Proof.
  split; [apply from_mime_type_unknown|].
  split; [apply from_extension_unknown|].
  split; reflexivity.
Qed.

Lemma format_lookups_total_witness :
  from_mime_type "text/plain" = UNKNOWN /\ from_extension "bmp" = UNKNOWN.
Proof.
  destruct format_lookups_total as (Hm & He & _).
  split; [apply Hm | apply He]; not_in_literals.
Defined.

(** C3 as stated fails: on [UNKNOWN], [to_mime_type] does not answer the
    placeholder ["unknown"]. *)
Lemma to_mime_type_unknown_placeholder :
  to_mime_type UNKNOWN <> "unknown".
Proof. discriminate. Qed.

(** C9: [from_extension] knows JPEG under the spelling ["jpg"] alone; ["jpeg"]
    and ["PNG"] give [UNKNOWN], as does every string outside the seven
    lower-case spellings, while [to_extension JPEG] is ["jpg"] and maps back to
    [JPEG]. *)
Theorem from_extension_jpg_only :
  from_extension "jpeg" = UNKNOWN /\
  from_extension "PNG" = UNKNOWN /\
  to_extension JPEG = "jpg" /\
  from_extension (to_extension JPEG) = JPEG /\
  (forall e : string, from_extension e = JPEG <-> e = "jpg") /\
  (forall e : string, e ∉ extensions -> from_extension e = UNKNOWN).
Proof.
  repeat (split; [reflexivity|]).
  split.
  - intros e. unfold from_extension.
    case_eqb e; split; intros H; try discriminate H; try reflexivity; congruence.
  - intros e. apply from_extension_unknown.
Qed.

Lemma from_extension_jpg_only_witness :
  from_extension "JPG" = UNKNOWN.
Proof.
  apply (proj2 (proj2 (proj2 (proj2 (proj2 from_extension_jpg_only))))).
  not_in_literals.
Defined.

(** ** Float arithmetic *)

Lemma pow2_pos (e : Z) : (0 < pow2 e)%Q.
Proof. apply Qpower_0_lt. reflexivity. Qed.

Lemma pow2_add (a b : Z) : (pow2 (a + b) == pow2 a * pow2 b)%Q.
Proof. apply Qpower_plus. discriminate. Qed.

Lemma pow2_Z (n : Z) : 0 <= n -> (pow2 n == inject_Z (2 ^ n))%Q.
Proof. intros H. unfold pow2. rewrite Zpower_Qpower by exact H. reflexivity. Qed.

Lemma pow2_lt_inv (a b : Z) : (pow2 a < pow2 b)%Q -> a < b.
Proof. intros H. apply (Qpower_lt_compat_l_inv 2); [exact H | reflexivity]. Qed.

Lemma pow2_le (a b : Z) : a <= b -> (pow2 a <= pow2 b)%Q.
Proof. intros H. apply Qpower_le_compat_l; [exact H | discriminate]. Qed.

Lemma ilog2_le (x : Q) : (0 < x)%Q -> (pow2 (ilog2 x) <= x)%Q.
Proof.
  intros Hx. unfold ilog2.
  destruct (Qle_bool _ x) eqn:E; [apply Qle_bool_iff; exact E|].
  destruct x as [a b]. cbn [Qnum Qden].
  assert (Ha : 0 < a). { unfold Qlt in Hx. cbn in Hx. lia. }
  destruct (Z.log2_spec a Ha) as [Ha1 _].
  destruct (Z.log2_spec (Zpos b) ltac:(lia)) as [_ Hb2].
  pose proof (Z.log2_nonneg a) as Hla.
  pose proof (Z.log2_nonneg (Zpos b)) as Hlb.
  set (la := Z.log2 a) in *. set (lb := Z.log2 (Zpos b)) in *.
  replace (la - lb - 1) with (la - (lb + 1)) by lia.
  unfold pow2. rewrite Qpower_minus by discriminate.
  fold (pow2 la). fold (pow2 (lb + 1)).
  rewrite (pow2_Z la) by lia. rewrite (pow2_Z (lb + 1)) by lia.
  rewrite (Qmake_Qdiv a b).
  assert (H1 : (0 < inject_Z (2 ^ (lb + 1)))%Q).
  { rewrite <- pow2_Z by lia. apply pow2_pos. }
  assert (H2 : (0 < inject_Z (Zpos b))%Q) by reflexivity.
  apply Qle_shift_div_r; [exact H1|].
  unfold Qdiv. rewrite <- Qmult_assoc, (Qmult_comm (/ _)), Qmult_assoc.
  apply Qle_shift_div_l; [exact H2|].
  rewrite <- !inject_Z_mult. rewrite <- Zle_Qle.
  replace (Z.succ lb) with (lb + 1) in Hb2 by lia. nia.
Qed.

Lemma round_half_even_between (x : Q) (M N : Z) :
  (inject_Z M <= x)%Q -> (x <= inject_Z N)%Q ->
  M <= round_half_even x <= N.
Proof.
  unfold Qle, round_half_even. destruct x as [n d]. cbn [Qnum Qden inject_Z].
  rewrite !Z.mul_1_r. intros HM HN.
  pose proof (Z.div_mod n (Zpos d) ltac:(lia)) as Hdm.
  pose proof (Z.mod_pos_bound n (Zpos d) ltac:(lia)) as Hr.
  assert (HfM : M <= n / Zpos d) by (apply Z.div_le_lower_bound; lia).
  assert (HfN : n / Zpos d <= N) by (apply Z.div_le_upper_bound; lia).
  set (fl := n / Zpos d) in *.
  destruct (Z.ltb_spec (2 * (n - fl * Zpos d)) (Zpos d)); [lia|].
  assert (fl < N) by nia.
  destruct (Z.ltb_spec (Zpos d) (2 * (n - fl * Zpos d))); [lia|].
  destruct (Z.even fl); lia.
Qed.

(** A quotient between two numbers of the grid of step [2^-k] that are
    themselves floats is rounded to a float between them. *)
Lemma round64_between (x : Q) (k A B : Z) :
  -971 <= k <= 1074 -> 0 <= A -> B < 2 ^ 53 ->
  (inject_Z A * pow2 (- k) <= x)%Q -> (x <= inject_Z B * pow2 (- k))%Q ->
  exists y : Q,
    round64 x = Finite y /\
    (inject_Z A * pow2 (- k) <= y)%Q /\ (y <= inject_Z B * pow2 (- k))%Q.
Proof.
  intros Hk HA HB HL HU. unfold round64.
  pose proof (pow2_pos (- k)) as Hpk.
  assert (HA' : (inject_Z 0 <= inject_Z A)%Q) by (rewrite <- Zle_Qle; exact HA).
  change (inject_Z 0) with 0%Q in HA'.
  destruct (Qeq_bool x 0) eqn:E.
  - apply Qeq_bool_iff in E. exists 0%Q. split; [reflexivity|].
    rewrite E in HL, HU. split; assumption.
  - apply Qeq_bool_neq in E.
    assert (Hx : (0 < x)%Q).
    { apply Qle_lteq in HL. assert (0 <= inject_Z A * pow2 (- k))%Q by nra.
      destruct (Qlt_le_dec 0 x) as [|Hle]; [assumption|].
      exfalso. apply E. apply Qle_antisym; [exact Hle | lra]. }
    assert (Habs : (Qabs x == x)%Q) by (apply Qabs_pos; lra).
    assert (Hlog : (pow2 (ilog2 (Qabs x)) <= x)%Q).
    { rewrite <- Habs at 2. apply ilog2_le. rewrite Habs. exact Hx. }
    set (e0 := ilog2 (Qabs x)) in *.
    assert (HB' : (inject_Z B < inject_Z (2 ^ 53))%Q)
      by (rewrite <- Zlt_Qlt; exact HB).
    assert (He0 : e0 < 53 - k).
    { apply pow2_lt_inv. replace (53 - k) with (53 + - k) by lia.
      rewrite pow2_add, (pow2_Z 53) by lia. nra. }
    set (e := Z.max e0 (-1022)).
    assert (Hp : e - 52 <= - k) by lia.
    set (p := e - 52) in *.
    set (j := - k - p).
    assert (Hj : 0 <= j) by lia.
    assert (Hgrid : (pow2 (- k) == inject_Z (2 ^ j) * pow2 p)%Q).
    { replace (- k) with (j + p) by lia. rewrite pow2_add, (pow2_Z j) by lia.
      reflexivity. }
    pose proof (pow2_pos p) as Hpp.
    destruct (round_half_even_between (x / pow2 p) (A * 2 ^ j) (B * 2 ^ j))
      as [Hlo Hhi].
    { apply Qle_shift_div_l; [exact Hpp|].
      rewrite inject_Z_mult, <- Qmult_assoc, <- Hgrid. exact HL. }
    { apply Qle_shift_div_r; [exact Hpp|].
      rewrite inject_Z_mult, <- Qmult_assoc, <- Hgrid. exact HU. }
    set (r := round_half_even (x / pow2 p)) in *.
    assert (HyL : (inject_Z A * pow2 (- k) <= inject_Z r * pow2 p)%Q).
    { rewrite Hgrid, Qmult_assoc, <- inject_Z_mult.
      apply Qmult_le_compat_r; [|lra]. rewrite <- Zle_Qle. exact Hlo. }
    assert (HyU : (inject_Z r * pow2 p <= inject_Z B * pow2 (- k))%Q).
    { rewrite Hgrid, Qmult_assoc, <- inject_Z_mult.
      apply Qmult_le_compat_r; [|lra]. rewrite <- Zle_Qle. exact Hhi. }
    exists (inject_Z r * pow2 p)%Q.
    assert (Hsmall : Qle_bool (pow2 1024) (Qabs (inject_Z r * pow2 p)) = false).
    { apply not_true_is_false. intros H. apply Qle_bool_iff in H.
      rewrite Qabs_pos in H by nra.
      assert (Hlim : (inject_Z B * pow2 (- k) < pow2 1024)%Q).
      { apply Qlt_le_trans with (pow2 (53 - k)).
        - replace (53 - k) with (53 + - k) by lia.
          rewrite pow2_add, (pow2_Z 53) by lia. nra.
        - apply pow2_le. lia. }
      lra. }
    rewrite Hsmall. split; [reflexivity|]. split; assumption.
Qed.

Lemma pow2_inv (k : Z) : 0 <= k -> (pow2 (- k) * inject_Z (2 ^ k) == 1)%Q.
Proof.
  intros Hk. rewrite <- (pow2_Z k) by exact Hk. rewrite <- pow2_add.
  replace (- k + k) with 0 by lia. reflexivity.
Qed.

(** The quotient of two integers, rounded: when the exact quotient stays
    [2^-k] below the next integer and that integer is small enough for the
    grid of step [2^-k] to be made of floats, the rounded quotient has the
    same integer part. *)
Lemma round64_quotient (n d k : Z) (x : Q) :
  0 <= n -> 0 < d -> 0 <= k <= 1074 ->
  (n / d + 1) * 2 ^ k <= 2 ^ 53 ->
  n * 2 ^ k <= ((n / d + 1) * 2 ^ k - 1) * d ->
  (x == inject_Z n / inject_Z d)%Q ->
  exists y : Q,
    round64 x = Finite y /\
    (inject_Z (n / d) <= y)%Q /\ (y < inject_Z (n / d + 1))%Q.
Proof.
  intros Hn Hd Hk Hfit Hgap Hx.
  set (m := n / d) in *.
  assert (Hm : 0 <= m) by (apply Z.div_pos; lia).
  pose proof (Z.mul_div_le n d Hd) as Hmd. fold m in Hmd.
  pose proof (pow2_inv k ltac:(lia)) as Hic.
  pose proof (pow2_pos (- k)) as Hi.
  assert (Hc : (0 < inject_Z (2 ^ k))%Q).
  { rewrite <- pow2_Z by lia. apply pow2_pos. }
  assert (HD : (0 < inject_Z d)%Q).
  { change 0%Q with (inject_Z 0). rewrite <- Zlt_Qlt. exact Hd. }
  assert (HLeq : (inject_Z (m * 2 ^ k) * pow2 (- k) == inject_Z m)%Q).
  { rewrite inject_Z_mult, <- Qmult_assoc, (Qmult_comm (inject_Z (2 ^ k))), Hic.
    apply Qmult_1_r. }
  assert (HUeq : (inject_Z ((m + 1) * 2 ^ k - 1) * pow2 (- k)
                  == inject_Z (m + 1) - pow2 (- k))%Q).
  { unfold Z.sub. rewrite inject_Z_plus, inject_Z_mult.
    change (inject_Z (-1)) with (- (1))%Q.
    setoid_replace ((inject_Z (m + 1) * inject_Z (2 ^ k) + - (1)) * pow2 (- k))%Q
      with (inject_Z (m + 1) * (pow2 (- k) * inject_Z (2 ^ k)) - pow2 (- k))%Q
      using relation Qeq by ring.
    rewrite Hic. ring. }
  destruct (round64_between x k (m * 2 ^ k) ((m + 1) * 2 ^ k - 1))
    as (y & Hy & HyL & HyU).
  - lia.
  - apply Z.mul_nonneg_nonneg; [exact Hm | apply Z.pow_nonneg; lia].
  - lia.
  - rewrite HLeq, Hx. apply Qle_shift_div_l; [exact HD|].
    rewrite <- inject_Z_mult, <- Zle_Qle. lia.
  - rewrite Hx. apply Qle_shift_div_r; [exact HD|].
    apply Qmult_le_r with (inject_Z (2 ^ k)); [exact Hc|].
    setoid_replace (inject_Z ((m + 1) * 2 ^ k - 1) * pow2 (- k) * inject_Z d
                    * inject_Z (2 ^ k))%Q
      with (inject_Z ((m + 1) * 2 ^ k - 1) * inject_Z d
            * (pow2 (- k) * inject_Z (2 ^ k)))%Q using relation Qeq by ring.
    rewrite Hic, Qmult_1_r, <- !inject_Z_mult, <- Zle_Qle. exact Hgap.
  - exists y. split; [exact Hy|]. rewrite HLeq in HyL. rewrite HUeq in HyU.
    split; [exact HyL | lra].
Qed.

Lemma quot_between (y : Q) (m : Z) :
  0 <= m -> (inject_Z m <= y)%Q -> (y < inject_Z (m + 1))%Q ->
  Z.quot (Qnum y) (Zpos (Qden y)) = m.
Proof.
  intros Hm. unfold Qle, Qlt. destruct y as [n d]. cbn [Qnum Qden inject_Z].
  rewrite !Z.mul_1_r. intros HL HU.
  rewrite Z.quot_div_nonneg by nia.
  symmetry. apply (Z.div_unique n (Zpos d) m (n - m * Zpos d)); lia.
Qed.

(** The rounding, checked against the Standard Library's specification of
    the binary64 division on every pair of the samples. *)
Lemma float_truediv_agrees_with_SpecFloat :
  forallb (fun x => forallb (division_agrees x) spec_samples) spec_samples
  = true.
Proof. vm_compute. reflexivity. Qed.

Lemma float_of_int_exact (n : Z) :
  0 <= n < 2 ^ 53 ->
  exists v : Q, float_of_int n = Returned (Finite v) /\ (v == inject_Z n)%Q.
Proof.
  intros Hn. unfold float_of_int.
  destruct (round64_between (inject_Z n) 0 n n) as (v & -> & HL & HU);
    try lia.
  - change (pow2 (- 0)) with 1%Q. rewrite Qmult_1_r. apply Qle_refl.
  - change (pow2 (- 0)) with 1%Q. rewrite Qmult_1_r. apply Qle_refl.
  - exists v. split; [reflexivity|].
    change (pow2 (- 0)) with 1%Q in HL, HU. rewrite Qmult_1_r in HL, HU.
    apply Qle_antisym; assumption.
Qed.

Lemma int_truediv_256 (n : Z) :
  0 <= n < 2 ^ 53 ->
  exists v : Q,
    int_truediv n 256 = Returned (Finite v) /\ (v == inject_Z n / 256)%Q.
Proof.
  intros Hn. unfold int_truediv. cbn [Z.eqb].
  destruct (round64_between (inject_Z n / inject_Z 256) 8 n n)
    as (v & -> & HL & HU); try lia.
  - apply Qle_refl.
  - apply Qle_refl.
  - exists v. split; [reflexivity|]. apply Qle_antisym; [exact HU | exact HL].
Qed.

(** ** Thumbnail dimensions *)

(** The shorter side, scaled: for dimensions below [2^45] the float quotient
    [a / (b / 256)] has the integer part of the exact one. *)
Lemma scaled_dimension (a b : Z) :
  0 <= a <= b -> 0 < b < 2 ^ 45 ->
  exists d q : float,
    int_truediv b 256 = Returned d /\
    int_float_truediv a d = Returned q /\
    int_of_float q = Returned (Z.quot (a * 256) b).
Proof.
  intros Ha Hb.
  destruct (int_truediv_256 b) as (vd & Hd & Hvd); [lia|].
  destruct (float_of_int_exact a) as (va & Hfa & Hva); [lia|].
  assert (HB : (0 < inject_Z b)%Q).
  { change 0%Q with (inject_Z 0). rewrite <- Zlt_Qlt. lia. }
  assert (Hpos : (0 < vd)%Q).
  { rewrite Hvd. apply Qlt_shift_div_l; [reflexivity|]. lra. }
  assert (Hnz : Qeq_bool vd 0 = false).
  { apply not_true_is_false. intros H. apply Qeq_bool_iff in H. lra. }
  assert (Hx : (va / vd == inject_Z (a * 256) / inject_Z b)%Q).
  { rewrite Hva, Hvd, inject_Z_mult. change (inject_Z 256) with 256%Q.
    field. lra. }
  assert (exists y : Q,
            round64 (va / vd) = Finite y /\
            (inject_Z (a * 256 / b) <= y)%Q /\
            (y < inject_Z (a * 256 / b + 1))%Q) as (y & Hy & HyL & HyU).
  { destruct (Z.eq_dec a b) as [->|Hne].
    - rewrite Z.mul_comm, Z.div_mul by lia.
      destruct (round64_between (va / vd) 0 256 256) as (y & Hy & HyL & HyU);
        try lia.
      + rewrite Hx, inject_Z_mult. apply Qle_shift_div_l; [exact HB|].
        change (pow2 (- 0)) with 1%Q. change (inject_Z 256) with 256%Q. lra.
      + rewrite Hx, inject_Z_mult. apply Qle_shift_div_r; [exact HB|].
        change (pow2 (- 0)) with 1%Q. change (inject_Z 256) with 256%Q. lra.
      + exists y. split; [exact Hy|].
        change (inject_Z 256 * pow2 (- 0))%Q with (256 * 1)%Q in HyL, HyU.
        change (inject_Z 256) with 256%Q. change (inject_Z (256 + 1)) with 257%Q.
        split; lra.
    - pose proof (Z.div_lt_upper_bound (a * 256) b 256 ltac:(lia) ltac:(lia)).
      pose proof (Z.div_pos (a * 256) b ltac:(lia) ltac:(lia)).
      pose proof (Z.mul_succ_div_gt (a * 256) b ltac:(lia)).
      apply (round64_quotient (a * 256) b 45).
      + lia.
      + lia.
      + lia.
      + change (2 ^ 53) with (256 * 2 ^ 45).
        apply Z.mul_le_mono_nonneg_r; lia.
      + change (2 ^ 45) with 35184372088832 in *. nia.
      + exact Hx. }
  pose proof (Z.div_pos (a * 256) b ltac:(lia) ltac:(lia)) as Hm0.
  exists (Finite vd), (Finite y). split; [exact Hd|]. split.
  - unfold int_float_truediv. rewrite Hfa. cbn [bind float_truediv].
    rewrite Hnz, Hy. reflexivity.
  - cbn [int_of_float]. rewrite (quot_between y _ Hm0 HyL HyU).
    rewrite Z.quot_div_nonneg by lia. reflexivity.
Qed.

Lemma quot_scaled_le (a b : Z) : 0 < b -> a <= b -> Z.quot (a * 256) b <= 256.
Proof.
  intros Hb Hab.
  transitivity (Z.quot (b * 256) b).
  - apply Z.quot_le_mono; lia.
  - rewrite Z.mul_comm, Z.quot_mul; lia.
Qed.

(** [to_thumbnail] returns on an image of fewer than [2^45] pixels a side:
    the divisor is the larger dimension, which is above 256 when a division
    is made, and the quotient truncates to the exact one. *)
Lemma to_thumbnail_returns (self : GenericImage) :
  0 <= width self < 2 ^ 45 -> 0 <= height self < 2 ^ 45 ->
  to_thumbnail self =
  Returned {| data := data self;
              width := (thumbnail_size (width self) (height self)).1;
              height := (thumbnail_size (width self) (height self)).2;
              format := format self |}.
Proof.
  destruct self as [d w h f]. unfold to_thumbnail, thumbnail_size.
  cbn [data width height format]. intros Hw Hh.
  destruct (Z.ltb_spec 256 w), (Z.ltb_spec 256 h); cbn [orb];
    try reflexivity; destruct (Z.ltb_spec h w).
  all: try lia.
  all: match goal with
       | |- context [int_float_truediv ?a _] =>
           match goal with
           | |- context [int_truediv ?b 256] =>
               destruct (scaled_dimension a b) as (vd & q & -> & Hq & Hi);
                 [lia | lia |]
           end
       end.
  all: cbn [mbind outcome_bind Py.bind]; rewrite Hq;
    cbn [mbind outcome_bind Py.bind]; rewrite Hi; reflexivity.
Qed.

Lemma thumbnail_size_small (w h : Z) :
  (thumbnail_size w h).1 <= 256 /\ (thumbnail_size w h).2 <= 256.
Proof.
  unfold thumbnail_size.
  destruct (Z.ltb_spec 256 w), (Z.ltb_spec 256 h); cbn [orb];
    try destruct (Z.ltb_spec h w); cbn [fst snd];
    split; try lia; apply quot_scaled_le; lia.
Qed.

Lemma thumbnail_size_fixed (w h : Z) :
  w <= 256 -> h <= 256 -> thumbnail_size w h = (w, h).
Proof.
  intros Hw Hh. unfold thumbnail_size.
  destruct (Z.ltb_spec 256 w), (Z.ltb_spec 256 h); cbn [orb]; try lia.
  reflexivity.
Qed.

Lemma thumbnail_size_nonneg (w h : Z) :
  0 <= w -> 0 <= h ->
  0 <= (thumbnail_size w h).1 /\ 0 <= (thumbnail_size w h).2.
Proof.
  intros Hw Hh. unfold thumbnail_size.
  destruct (Z.ltb_spec 256 w), (Z.ltb_spec 256 h); cbn [orb];
    try destruct (Z.ltb_spec h w); cbn [fst snd];
    split; try lia; apply Z.quot_pos; lia.
Qed.

(** C4: on an image of fewer than [2^45] pixels a side (a payload the
    program can decode describes far fewer), [to_thumbnail] returns a value
    with the same bytes and the same format; when width and height are both
    at most 256 they are kept; otherwise the longer dimension becomes 256 and
    the shorter one the quotient of [shorter * 256] by the longer, truncated.
    The image it was called on is still in the store, unchanged, next to the
    new one. *)
Theorem to_thumbnail_dimensions (self : GenericImage) :
  0 <= width self < 2 ^ 45 -> 0 <= height self < 2 ^ 45 ->
  exists thumb : GenericImage,
    to_thumbnail self = Returned thumb /\
    data thumb = data self /\
    format thumb = format self /\
    (width self <= 256 -> height self <= 256 ->
     width thumb = width self /\ height thumb = height self) /\
    (256 < width self \/ 256 < height self ->
     (height self < width self ->
      width thumb = 256 /\
      height thumb = Z.quot (height self * 256) (width self)) /\
     (width self <= height self ->
      height thumb = 256 /\
      width thumb = Z.quot (width self * 256) (height self))) /\
    (forall (σ : heap) (l : positive),
       σ !! l = Some self ->
       exists l' : positive,
         to_thumbnail_at σ l = Returned (l', <[l' := thumb]> σ) /\
         <[l' := thumb]> σ !! l = Some self).
Proof.
  intros Hwidth Hheight.
  eexists. split; [apply to_thumbnail_returns; assumption|].
  cbn [data width height format].
  split; [reflexivity|]. split; [reflexivity|].
  split; [|split].
  - intros Hw Hh. rewrite thumbnail_size_fixed by assumption. split; reflexivity.
  - intros Hbig. unfold thumbnail_size.
    destruct (Z.ltb_spec 256 (width self)), (Z.ltb_spec 256 (height self));
      cbn [orb]; try lia;
      destruct (Z.ltb_spec (height self) (width self)); cbn [fst snd];
      (split; intros ?; [try lia | try lia]); split; reflexivity.
  - intros σ l Hl. exists (fresh (dom σ)).
    unfold to_thumbnail_at. rewrite Hl, to_thumbnail_returns by assumption.
    split; [reflexivity|].
    rewrite lookup_insert_ne; [exact Hl|].
    intros Heq. apply (is_fresh (dom σ)). rewrite Heq.
    apply elem_of_dom. eauto.
Qed.

Lemma to_thumbnail_dimensions_witness :
  exists thumb : GenericImage,
    to_thumbnail {| data := []; width := 512; height := 300; format := PNG |}
      = Returned thumb /\
    width thumb = 256 /\ height thumb = 150.
Proof.
  destruct (to_thumbnail_dimensions
              {| data := []; width := 512; height := 300; format := PNG |})
    as (thumb & Hret & _ & _ & _ & Hbig & _); [cbn; lia | cbn; lia |].
  exists thumb. split; [exact Hret|].
  cbn [width height] in Hbig.
  destruct Hbig as [Hwide _]; [left; lia|].
  destruct Hwide as [Hw Hh]; [lia|].
  split; [exact Hw | exact Hh].
Defined.

(** The bound is there for the rounding of the quotient: on an image
    [2^47 + 255] wide the float quotient reaches 255 where the exact one
    truncates to 254, and a width that is no float makes the division
    raise. *)
Lemma to_thumbnail_beyond_the_bound :
  to_thumbnail {| data := []; width := 2 ^ 47 + 255;
                  height := 255 * 2 ^ 39 + 254; format := PNG |}
  = Returned {| data := []; width := 256; height := 255; format := PNG |} /\
  Z.quot ((255 * 2 ^ 39 + 254) * 256) (2 ^ 47 + 255) = 254 /\
  to_thumbnail {| data := []; width := 2 ^ 60;
                  height := 256 * 2 ^ 60 + 1; format := PNG |}
  = Returned {| data := []; width := 1; height := 256; format := PNG |} /\
  to_thumbnail {| data := []; width := 10 ^ 400; height := 1; format := PNG |}
  = Raised "OverflowError".
Proof. repeat split; vm_compute; reflexivity. Qed.

(** C6: [to_thumbnail] is idempotent: applied to its own result it returns
    the same width and height (the result has both at most 256, and an image
    that small is returned as it is). *)
Theorem to_thumbnail_idempotent (self : GenericImage) :
  0 <= width self < 2 ^ 45 -> 0 <= height self < 2 ^ 45 ->
  exists once : GenericImage,
    to_thumbnail self = Returned once /\
    exists twice : GenericImage,
      to_thumbnail once = Returned twice /\
      width twice = width once /\ height twice = height once.
Proof.
  intros Hwidth Hheight.
  destruct (thumbnail_size_small (width self) (height self)) as [Hw Hh].
  destruct (thumbnail_size_nonneg (width self) (height self)) as [Hw0 Hh0];
    [lia | lia |].
  eexists. split; [apply to_thumbnail_returns; assumption|].
  eexists. split.
  - apply to_thumbnail_returns; cbn [width height];
      change (2 ^ 45) with 35184372088832; lia.
  - cbn [data width height format].
    rewrite thumbnail_size_fixed by assumption. split; reflexivity.
Qed.

Lemma to_thumbnail_idempotent_witness :
  exists once twice : GenericImage,
    to_thumbnail {| data := []; width := 512; height := 300; format := PNG |}
      = Returned once /\
    to_thumbnail once = Returned twice /\
    width twice = 256 /\ height twice = 150.
Proof.
  destruct (to_thumbnail_idempotent
              {| data := []; width := 512; height := 300; format := PNG |})
    as (once & Honce & twice & Htwice & Hw & Hh); [cbn; lia | cbn; lia |].
  exists once, twice. split; [exact Honce|]. split; [exact Htwice|].
  rewrite Hw, Hh.
  assert (Hvalue : Returned once
            = Returned {| data := []; width := 256; height := 150;
                          format := PNG |}).
  { rewrite <- Honce. vm_compute. reflexivity. }
  injection Hvalue as ->. split; reflexivity.
Defined.

(** ** Display names *)

Lemma append_cons (c : ascii) (s t : string) :
  String c s +:+ t = String c (s +:+ t).
Proof. reflexivity. Qed.

Lemma append_empty (t : string) : EmptyString +:+ t = t.
Proof. reflexivity. Qed.

Lemma split_once_prefix (sep : ascii) (prefix rest : string) :
  occurs sep prefix = false ->
  split_once sep (prefix +:+ String sep rest) = [prefix; rest].
Proof.
  induction prefix as [|c prefix IH]; intros Hp.
  - rewrite append_empty. cbn [split_once]. rewrite Ascii.eqb_refl. reflexivity.
  - cbn [occurs] in Hp. apply orb_false_elim in Hp as [Hc Hp].
    rewrite append_cons. cbn [split_once]. rewrite Hc, (IH Hp). reflexivity.
Qed.

Lemma split_once_shape (sep : ascii) (s : string) :
  split_once sep s = [s] \/
  exists a b : string, split_once sep s = [a; b] /\ s = a +:+ String sep b.
Proof.
  induction s as [|c s IH].
  - left. reflexivity.
  - cbn [split_once]. destruct (Ascii.eqb_spec c sep) as [->|Hne].
    + right. exists EmptyString, s. split; reflexivity.
    + destruct IH as [-> | (a & b & -> & Hs)].
      * left. reflexivity.
      * right. exists (String c a), b. split; [reflexivity|].
        rewrite append_cons, <- Hs. reflexivity.
Qed.

Lemma high_byte_differs (b c : ascii) :
  128 <= byte_value b -> byte_value c < 128 -> Ascii.eqb b c = false.
Proof.
  intros Hb Hc. destruct (Ascii.eqb_spec b c) as [->|]; [lia | reflexivity].
Qed.

Lemma continuation_high (b : ascii) (n : Z) :
  continuation b = Some n -> 128 <= byte_value b.
Proof.
  unfold continuation.
  destruct (Z.leb_spec 128 (byte_value b)); [intros _; assumption | discriminate].
Qed.

(** An ASCII character of the encoding is a character of the text: the
    bytes of a longer sequence are all above 127. *)
Lemma code_points_ascii (c : ascii) (n : nat) :
  byte_value c < 128 ->
  forall (s : string) (cs : list Z),
    (String.length s <= n)%nat ->
    code_points s = Some cs -> occurs c s = true -> byte_value c ∈ cs.
Proof.
  intros Hc. induction n as [|n IH]; intros s cs Hlen Hcp Hocc.
  - destruct s; [discriminate Hocc | cbn in Hlen; lia].
  - destruct s as [|b0 s1]; [discriminate Hocc|].
    cbn [code_points] in Hcp. cbn [String.length] in Hlen.
    destruct (Z.ltb_spec (byte_value b0) 128) as [H0|H0].
    { destruct (code_points s1) as [cs1|] eqn:Hs1; [|discriminate Hcp].
      injection Hcp as <-. cbn [occurs] in Hocc.
      destruct (Ascii.eqb_spec b0 c) as [->|_].
      - apply list_elem_of_here.
      - apply list_elem_of_further, (IH s1); [lia | exact Hs1 | exact Hocc]. }
    cbn [occurs] in Hocc. rewrite (high_byte_differs b0 c H0 Hc) in Hocc.
    cbn [orb] in Hocc.
    destruct (byte_value b0 <? 192); [discriminate Hcp|].
    destruct (byte_value b0 <? 224).
    { destruct s1 as [|b1 s2]; [discriminate Hcp|].
      destruct (continuation b1) as [n1|] eqn:H1; [|discriminate Hcp].
      cbn [mbind option_bind] in Hcp.
      destruct (_ <? 128); [discriminate Hcp|].
      destruct (code_points s2) as [cs2|] eqn:Hs2; [|discriminate Hcp].
      injection Hcp as <-. cbn [occurs String.length] in Hocc, Hlen.
      rewrite (high_byte_differs b1 c (continuation_high _ _ H1) Hc) in Hocc.
      apply list_elem_of_further, (IH s2); [lia | exact Hs2 | exact Hocc]. }
    destruct (byte_value b0 <? 240).
    { destruct s1 as [|b1 [|b2 s3]]; try discriminate Hcp.
      destruct (continuation b1) as [n1|] eqn:H1; [|discriminate Hcp].
      destruct (continuation b2) as [n2|] eqn:H2; [|discriminate Hcp].
      cbn [mbind option_bind] in Hcp.
      destruct (_ <? 2048); [discriminate Hcp|].
      destruct (code_points s3) as [cs3|] eqn:Hs3; [|discriminate Hcp].
      injection Hcp as <-. cbn [occurs String.length] in Hocc, Hlen.
      rewrite (high_byte_differs b1 c (continuation_high _ _ H1) Hc),
        (high_byte_differs b2 c (continuation_high _ _ H2) Hc) in Hocc.
      apply list_elem_of_further, (IH s3); [lia | exact Hs3 | exact Hocc]. }
    destruct (byte_value b0 <? 248); [|discriminate Hcp].
    destruct s1 as [|b1 [|b2 [|b3 s4]]]; try discriminate Hcp.
    destruct (continuation b1) as [n1|] eqn:H1; [|discriminate Hcp].
    destruct (continuation b2) as [n2|] eqn:H2; [|discriminate Hcp].
    destruct (continuation b3) as [n3|] eqn:H3; [|discriminate Hcp].
    cbn [mbind option_bind] in Hcp.
    destruct (_ || _); [discriminate Hcp|].
    destruct (code_points s4) as [cs4|] eqn:Hs4; [|discriminate Hcp].
    injection Hcp as <-. cbn [occurs String.length] in Hocc, Hlen.
    rewrite (high_byte_differs b1 c (continuation_high _ _ H1) Hc),
      (high_byte_differs b2 c (continuation_high _ _ H2) Hc),
      (high_byte_differs b3 c (continuation_high _ _ H3) Hc) in Hocc.
    apply list_elem_of_further, (IH s4); [lia | exact Hs4 | exact Hocc].
Qed.

(** A decimal prefix has no dash in it, so the first dash of the stem is
    the one after it. *)
Lemma isdecimal_no_dash (s : string) : isdecimal s = true -> occurs "-" s = false.
Proof.
  unfold isdecimal. intros H.
  destruct (code_points s) as [[|c cs]|] eqn:Hcp; try discriminate H.
  destruct (occurs "-" s) eqn:Hocc; [|reflexivity].
  pose proof (code_points_ascii "-" (String.length s) ltac:(reflexivity)
                s (c :: cs) ltac:(lia) Hcp Hocc) as Hin.
  rewrite forallb_forall in H. apply list_elem_of_In, H in Hin.
  discriminate Hin.
Qed.

Lemma occurs_app (c : ascii) (s t : string) :
  occurs c (s +:+ t) = occurs c s || occurs c t.
Proof.
  induction s as [|a s IH]; [reflexivity|].
  rewrite append_cons. cbn [occurs]. rewrite IH. apply orb_assoc.
Qed.

Lemma rfind_absent (c : ascii) (s : string) : occurs c s = false -> rfind c s = -1.
Proof.
  induction s as [|a s IH]; [reflexivity|].
  cbn [occurs rfind]. intros H. apply orb_false_elim in H as [Ha Hs].
  rewrite (IH Hs), Ha. reflexivity.
Qed.

Lemma rfind_last (c : ascii) (s t : string) :
  occurs c t = false ->
  rfind c (s +:+ String c t) = Z.of_nat (String.length s).
Proof.
  intros Ht. induction s as [|a s IH].
  - rewrite append_empty. cbn [rfind].
    rewrite (rfind_absent c t Ht), Ascii.eqb_refl. reflexivity.
  - rewrite append_cons. cbn [rfind String.length]. rewrite IH.
    destruct (Z.leb_spec 0 (Z.of_nat (String.length s))); lia.
Qed.

Lemma substring_all (t : string) : String.substring 0 (String.length t) t = t.
Proof.
  induction t as [|a t IH]; [reflexivity|].
  cbn [String.length String.substring]. rewrite IH. reflexivity.
Qed.

Lemma substring_prefix (s t : string) :
  String.substring 0 (String.length s) (s +:+ t) = s.
Proof.
  induction s as [|a s IH].
  - destruct t; reflexivity.
  - rewrite append_cons. cbn [String.length String.substring].
    rewrite IH. reflexivity.
Qed.

Lemma substring_suffix (s t : string) :
  String.substring (String.length s) (String.length t) (s +:+ t) = t.
Proof.
  induction s as [|a s IH].
  - apply substring_all.
  - rewrite append_cons. exact IH.
Qed.

Lemma length_append (s t : string) :
  String.length (s +:+ t) = (String.length s + String.length t)%nat.
Proof.
  induction s as [|a s IH]; [reflexivity|].
  rewrite append_cons. cbn [String.length]. rewrite IH. reflexivity.
Qed.

Lemma get_append_at (s t : string) (c : ascii) :
  String.get (String.length s) (s +:+ String c t) = Some c.
Proof. induction s as [|a s IH]; [reflexivity | exact IH]. Qed.

Lemma append_assoc (s t u : string) : (s +:+ t) +:+ u = s +:+ (t +:+ u).
Proof.
  induction s as [|a s IH]; [reflexivity|].
  rewrite !append_cons, IH. reflexivity.
Qed.

Lemma has_non_dot_scan (pre base rest : string) :
  has_non_dot (pre +:+ base +:+ rest) (String.length pre) (String.length base)
  = has_other_than_dot base.
Proof.
  revert pre. induction base as [|c base IH]; intros pre; [reflexivity|].
  cbn [String.length has_non_dot has_other_than_dot].
  rewrite append_cons, get_append_at.
  destruct (Ascii.eqb c "."); [|reflexivity].
  cbn [negb orb]. rewrite <- (IH (pre +:+ String c EmptyString)).
  rewrite append_assoc, append_cons, append_empty, length_append.
  cbn [String.length]. rewrite Nat.add_1_r. reflexivity.
Qed.

(** [os.path.splitext] on a plain file name [base.ext]: no slash, no dot in
    the extension, and a base that is not made of dots alone. *)
Lemma splitext_extension (base ext : string) :
  occurs "/" base = false -> occurs "/" ext = false ->
  occurs "." ext = false -> has_other_than_dot base = true ->
  splitext (base +:+ "." +:+ ext) = (base, "." +:+ ext).
Proof.
  intros Hsb Hse Hde Hbase. unfold splitext.
  rewrite (rfind_absent "/").
  2:{ rewrite !occurs_app, Hsb, Hse. reflexivity. }
  change ("." +:+ ext) with (String "." ext).
  rewrite (rfind_last "." base ext Hde).
  change (-1 + 1) with 0. rewrite Z.sub_0_r, Nat2Z.id.
  change (Z.to_nat 0) with (String.length EmptyString).
  pose proof (has_non_dot_scan EmptyString base (String "." ext)) as Hscan.
  rewrite append_empty in Hscan. rewrite Hscan, Hbase.
  destruct (Z.ltb_spec (-1) (Z.of_nat (String.length base))); [|lia].
  cbn [andb]. unfold take_str, drop_str. rewrite Nat2Z.id.
  rewrite substring_prefix.
  rewrite length_append, Nat.add_comm, Nat.add_sub, substring_suffix.
  reflexivity.
Qed.

(** The last occurrence of a character splits the string around it. *)
Lemma last_occurrence (c : ascii) (s : string) :
  occurs c s = false \/
  exists pre post : string, s = pre +:+ String c post /\ occurs c post = false.
Proof.
  induction s as [|a s IH]; [left; reflexivity|].
  destruct IH as [Hno | (pre & post & -> & Hpost)].
  - cbn [occurs]. destruct (Ascii.eqb_spec a c) as [->|Hne].
    + right. exists EmptyString, s. split; [reflexivity | exact Hno].
    + left. exact Hno.
  - right. exists (String a pre), post. split; [reflexivity | exact Hpost].
Qed.

(** [os.path.splitext] on a name without slash and without an extension:
    no dot, or nothing but dots before the last one. *)
Lemma splitext_no_extension (file : string) :
  occurs "/" file = false ->
  (forall base ext : string,
     file = base +:+ "." +:+ ext ->
     occurs "." ext = false -> has_other_than_dot base = false) ->
  splitext file = (file, EmptyString).
Proof.
  intros Hslash Hno. unfold splitext.
  rewrite (rfind_absent "/" file Hslash).
  destruct (last_occurrence "." file) as [Hdot | (base & ext & -> & Hext)].
  - rewrite (rfind_absent "." file Hdot). reflexivity.
  - rewrite (rfind_last "." base ext Hext).
    change (-1 + 1) with 0. rewrite Z.sub_0_r, Nat2Z.id.
    change (Z.to_nat 0) with (String.length EmptyString).
    pose proof (has_non_dot_scan EmptyString base (String "." ext)) as Hscan.
    rewrite append_empty in Hscan. rewrite Hscan.
    rewrite (Hno base ext eq_refl Hext), andb_false_r. reflexivity.
Qed.

(** C7: the display name of a file is its stem, the name without its
    extension: for a name without slash (a directory entry), [base] when the
    name reads [base.ext] with no dot in [ext] and a [base] that is not made
    of dots alone, and the whole name when it does not read so. When the
    stem reads [digits-rest] with [digits] a non-empty run of decimal digits
    ([str.isdecimal]), the name is [rest]; when the stem has no such shape
    (no dash, or a prefix that is not all digits) the name is the stem. So
    ["03-wave.png"] gives ["wave"], ["wave.png"] gives ["wave"] and
    ["abc-wave.png"] gives ["abc-wave"]. *)
Theorem display_name_ordinal_prefix (file : string) :
  let stem := (splitext file).1 in
  (occurs "/" file = false ->
   (forall base ext : string,
      file = base +:+ "." +:+ ext ->
      occurs "." ext = false -> has_other_than_dot base = true ->
      stem = base) /\
   ((forall base ext : string,
       file = base +:+ "." +:+ ext ->
       occurs "." ext = false -> has_other_than_dot base = false) ->
    stem = file)) /\
  (forall digits rest : string,
     stem = digits +:+ "-" +:+ rest -> isdecimal digits = true ->
     display_name file = rest) /\
  ((forall digits rest : string,
      stem = digits +:+ "-" +:+ rest -> isdecimal digits = false) ->
   display_name file = stem) /\
  display_name "03-wave.png" = "wave" /\
  display_name "wave.png" = "wave" /\
  display_name "abc-wave.png" = "abc-wave".
Proof.
  intros stem. unfold display_name. fold stem. split; [|split; [|split]].
  - intros Hslash. split.
    + intros base ext -> Hde Hbase. unfold stem.
      rewrite !occurs_app in Hslash. cbn [occurs] in Hslash.
      apply orb_false_elim in Hslash as [Hsb Hse].
      rewrite splitext_extension by assumption. reflexivity.
    + intros Hno. unfold stem.
      rewrite splitext_no_extension by assumption. reflexivity.
  - intros digits rest -> Hd.
    change ("-" +:+ rest) with (String "-" rest).
    rewrite split_once_prefix by (apply isdecimal_no_dash; exact Hd).
    rewrite Hd. reflexivity.
  - intros Hno. destruct (split_once_shape "-" stem) as [-> | (a & b & -> & Hs)].
    + reflexivity.
    + rewrite (Hno a b Hs). reflexivity.
  - repeat split; vm_compute; reflexivity.
Qed.

(** A prefix of digits of another script is dropped as well (here the
    Arabic-Indic digit three, two bytes of the encoding), and a superscript
    two, a digit that is no decimal digit, is kept. *)
Lemma display_name_ordinal_prefix_witness :
  display_name "12-cat.png" = "cat" /\ display_name "cat-12.png" = "cat-12" /\
  display_name "٣-cat.png" = "cat" /\ display_name "²-cat.png" = "²-cat" /\
  (splitext ".hidden").1 = ".hidden".
Proof.
  destruct (display_name_ordinal_prefix "12-cat.png") as (_ & Hstrip & _).
  destruct (display_name_ordinal_prefix "cat-12.png") as (_ & _ & Hkeep & _).
  destruct (display_name_ordinal_prefix "٣-cat.png") as (_ & Harabic & _).
  destruct (display_name_ordinal_prefix "²-cat.png") as (_ & _ & Hsuper & _).
  destruct (display_name_ordinal_prefix ".hidden") as ([_ Hwhole] & _);
    [reflexivity|].
  split; [|split; [|split; [|split]]].
  - apply (Hstrip "12" "cat"); reflexivity.
  - apply Hkeep. intros digits rest Hstem.
    destruct (isdecimal digits) eqn:Hd; [|reflexivity].
    pose proof (isdecimal_no_dash _ Hd) as Hdash.
    change ((splitext "cat-12.png").1) with ("cat" +:+ String "-" "12") in Hstem.
    change ("-" +:+ rest) with (String "-" rest) in Hstem.
    assert (Hsplit : split_once "-" ("cat" +:+ String "-" "12")
                     = [digits; rest]).
    { rewrite Hstem. apply split_once_prefix. exact Hdash. }
    injection Hsplit as <- _. vm_compute in Hd. discriminate Hd.
  - apply (Harabic "٣" "cat"); reflexivity.
  - apply Hsuper. intros digits rest Hstem.
    destruct (isdecimal digits) eqn:Hd; [|reflexivity].
    pose proof (isdecimal_no_dash _ Hd) as Hdash.
    change ((splitext "²-cat.png").1) with ("²" +:+ String "-" "cat") in Hstem.
    change ("-" +:+ rest) with (String "-" rest) in Hstem.
    assert (Hsplit : split_once "-" ("²" +:+ String "-" "cat")
                     = [digits; rest]).
    { rewrite Hstem. apply split_once_prefix. exact Hdash. }
    injection Hsplit as <- _. vm_compute in Hd. discriminate Hd.
  - apply Hwhole. intros base ext Hfile Hext.
    destruct base as [|c base]; [reflexivity|].
    rewrite append_cons in Hfile. injection Hfile as <- Hrest.
    exfalso.
    assert (Hocc : occurs "." "hidden" = true).
    { rewrite Hrest, !occurs_app. change (occurs "." ".") with true.
      cbn [orb]. apply orb_true_r. }
    discriminate Hocc.
Defined.

(** ** Animation transcoder *)

(** For a whole number of frames per second the duration is the integer
    quotient of 1000 by the rate: the float quotient stays below the next
    integer. *)
Lemma frame_duration_integral (R : Q) (n : Z) :
  1 <= n -> (R == inject_Z n)%Q -> frame_duration R = Returned (1000 / n).
Proof.
  intros Hn HR. unfold frame_duration, int_float_truediv.
  destruct (float_of_int_exact 1000) as (v & -> & Hv); [lia|].
  cbn [mbind outcome_bind Py.bind float_truediv].
  assert (HN : (0 < inject_Z n)%Q).
  { change 0%Q with (inject_Z 0). rewrite <- Zlt_Qlt. lia. }
  assert (Hnz : Qeq_bool R 0 = false).
  { apply not_true_is_false. intros H. apply Qeq_bool_iff in H.
    rewrite HR in H. lra. }
  rewrite Hnz.
  pose proof (Z.div_pos 1000 n ltac:(lia) ltac:(lia)) as Hm0.
  pose proof (Z.div_le_upper_bound 1000 n 1000 ltac:(lia) ltac:(nia)) as Hm.
  pose proof (Z.mul_succ_div_gt 1000 n ltac:(lia)) as Hgt.
  destruct (round64_quotient 1000 n 10 (v / R)) as (y & -> & HyL & HyU).
  - lia.
  - lia.
  - lia.
  - change (2 ^ 10) with 1024. change (2 ^ 53) with 9007199254740992. lia.
  - change (2 ^ 10) with 1024.
    destruct (Z_le_gt_dec n 1000).
    + nia.
    + rewrite Z.div_small by lia. lia.
  - rewrite Hv, HR. reflexivity.
  - cbn [mbind outcome_bind Py.bind int_of_float].
    rewrite (quot_between y _ Hm0 HyL HyU). reflexivity.
Qed.

Section TranscoderFacts.

Variable from_tgs : bytes -> outcome LottieAnimation.
Variable frombytes : string -> Z * Z -> bytes -> outcome PILImage.
Variable save_webp : WebpSave -> outcome bytes.

(** The loop appends the image of each index, in the order of the indices. *)
Lemma render_frames_rendered animation indices (frames acc : list PILImage) :
  rendered frombytes animation indices frames ->
  render_frames frombytes animation (lottie_animation_get_size animation)
    indices acc = Returned (acc ++ frames)%list.
Proof.
  intros H. revert acc. induction H as [|i img indices frames Hi _ IH]; intros acc.
  - cbn. rewrite app_nil_r. reflexivity.
  - cbn [render_frames]. rewrite Hi. cbn [mbind outcome_bind Py.bind].
    rewrite IH, <- app_assoc. reflexivity.
Qed.

Lemma rendered_length animation n (frames : list PILImage) :
  rendered frombytes animation (range n) frames -> length frames = Z.to_nat n.
Proof.
  intros H. apply Forall2_length in H. rewrite <- H.
  unfold range. rewrite length_map, length_seq. reflexivity.
Qed.

(** C1, as the code has it: when the animation loads and its [F] frames
    render to [frames] (frame [i] of the animation at position [i]), then for
    [F = 1] the transcoder has the single frame encoded as a still, and for
    [F > 1] it computes the duration [int(1000 / R)] from the frame rate [R]
    and has one animation encoded, made of [frames] in rendering order, with
    the loop count 0 that means forever, and with that duration for every
    frame. The duration is the float quotient truncated, not rounded; for a
    whole number [n >= 1] of frames per second it is the integer quotient of
    1000 by [n]. *)
Theorem convert_tgs_to_webp_encoding data animation (frames : list PILImage) :
  from_tgs data = Returned animation ->
  rendered frombytes animation
    (range (lottie_animation_get_totalframe animation)) frames ->
  (lottie_animation_get_totalframe animation = 1 ->
   exists frame,
     frames = [frame] /\
     convert_tgs_to_webp from_tgs frombytes save_webp data
       = save_webp (SaveStill frame 95)) /\
  (1 < lottie_animation_get_totalframe animation ->
   exists first rest,
     frames = first :: rest /\
     convert_tgs_to_webp from_tgs frombytes save_webp data
       = (duration ← frame_duration (lottie_animation_get_framerate animation);
          save_webp (SaveAll first rest duration 0)) /\
     forall n : Z,
       1 <= n ->
       (lottie_animation_get_framerate animation == inject_Z n)%Q ->
       frame_duration (lottie_animation_get_framerate animation)
         = Returned (1000 / n) /\
       convert_tgs_to_webp from_tgs frombytes save_webp data
         = save_webp (SaveAll first rest (1000 / n) 0)).
Proof.
  intros Hload Hframes.
  pose proof (rendered_length _ _ _ Hframes) as Hlen.
  unfold convert_tgs_to_webp. rewrite Hload. cbn [mbind outcome_bind Py.bind].
  rewrite (render_frames_rendered _ _ frames) by exact Hframes.
  cbn [mbind outcome_bind Py.bind app].
  split.
  - intros HF. rewrite HF in Hlen.
    destruct frames as [|frame [|? ?]]; try discriminate Hlen.
    exists frame. split; reflexivity.
  - intros HF.
    destruct frames as [|first rest]; [cbn in Hlen; lia|].
    exists first, rest. split; [reflexivity|].
    destruct (Z.ltb_spec 1 (Z.of_nat (length (first :: rest)))); [|lia].
    cbn [first_frame mbind outcome_bind Py.bind tail].
    assert (Hcode : forall R,
              (q ← int_float_truediv 1000 (Finite R);
               duration ← int_of_float q;
               save_webp (SaveAll first rest duration 0))
              = (duration ← frame_duration R;
                 save_webp (SaveAll first rest duration 0))).
    { intros R. unfold frame_duration.
      destruct (int_float_truediv 1000 (Finite R)); reflexivity. }
    rewrite Hcode. split; [reflexivity|].
    intros n Hn HR.
    rewrite (frame_duration_integral _ n Hn HR). split; reflexivity.
Qed.

(** C5, as the code has it: an animation that loads with a frame count of 0
    makes the transcoder raise [IndexError], from [frames[0]] on the empty
    list; nothing is encoded and no bytes are returned. *)
Theorem convert_tgs_to_webp_empty data animation :
  from_tgs data = Returned animation ->
  lottie_animation_get_totalframe animation = 0 ->
  convert_tgs_to_webp from_tgs frombytes save_webp data = Raised "IndexError".
Proof.
  intros Hload HF. unfold convert_tgs_to_webp.
  rewrite Hload. cbn [mbind outcome_bind Py.bind]. rewrite HF. reflexivity.
Qed.

End TranscoderFacts.

Lemma convert_tgs_to_webp_encoding_witness :
  convert_tgs_to_webp (loads two_frames_60fps) frombytes_ok save_webp_trace []
  = Returned (repeat Byte.x00 16).
Proof.
  destruct (convert_tgs_to_webp_encoding (loads two_frames_60fps) frombytes_ok
              save_webp_trace [] two_frames_60fps [blank_frame; blank_frame])
    as [_ Hmany].
  - reflexivity.
  - repeat constructor.
  - destruct Hmany as (first & rest & _ & _ & Hwhole); [cbn; lia|].
    destruct (Hwhole 60) as [_ ->]; [lia | reflexivity | reflexivity].
Defined.

(** C1 as stated fails: at 60 frames per second, [round(1000 / 60)] is 17
    while the duration the transcoder asks for is 16. *)
Lemma duration_is_truncated_not_rounded :
  (q ← int_float_truediv 1000 (Finite 60); round q) = Returned 17 /\
  convert_tgs_to_webp (loads two_frames_60fps) frombytes_ok save_webp_trace []
  = save_webp_trace (SaveAll blank_frame [blank_frame] 16 0) /\
  convert_tgs_to_webp (loads two_frames_60fps) frombytes_ok save_webp_trace []
  <> save_webp_trace (SaveAll blank_frame [blank_frame] 17 0).
Proof.
  split; [vm_compute; reflexivity|]. split; [vm_compute; reflexivity|].
  vm_compute. discriminate.
Qed.

(** The duration is the truncation of the float quotient, which is not
    always that of the exact one: at the float nearest to 1.6 frames per
    second the exact quotient is just below 625 and the float quotient is
    625. A rate too small for the quotient to be a finite float, and a rate
    of 0, make the computation raise. *)
Lemma frame_duration_of_the_float_quotient :
  frame_duration (3602879701896397 # 2251799813685248) = Returned 625 /\
  Z.quot (1000 * 2251799813685248) 3602879701896397 = 624 /\
  frame_duration (pow2 (-1074)) = Raised "OverflowError" /\
  frame_duration 0 = Raised "ZeroDivisionError".
Proof. repeat split; vm_compute; reflexivity. Qed.

Lemma convert_tgs_to_webp_empty_witness :
  convert_tgs_to_webp (loads no_frames) frombytes_ok save_webp_trace []
  = Raised "IndexError".
Proof.
  apply (convert_tgs_to_webp_empty _ _ _ _ no_frames); reflexivity.
Defined.

(** C5 as stated fails: the exception of the empty animation is not a
    [DecodeError]. *)
Lemma empty_animation_is_no_DecodeError :
  convert_tgs_to_webp (loads no_frames) frombytes_ok save_webp_trace []
  <> Raised "DecodeError".
Proof. vm_compute. discriminate. Qed.

(** ** Index writer *)

Section IndexFacts.

Variable homeserver_url : option string.

Lemma with_homeserver_packs (o : gmap string json) :
  with_homeserver homeserver_url o !! "packs" = o !! "packs".
Proof.
  unfold with_homeserver.
  destruct (negb _ && truthy homeserver_url); [|reflexivity].
  apply lookup_insert_ne. discriminate.
Qed.

Lemma existsb_occurrences (name : string) (l : list json) :
  existsb (eq_str name) l = false <-> occurrences name l = 0%nat.
Proof.
  unfold occurrences. induction l as [|j l IH]; [split; reflexivity|].
  cbn [existsb List.filter]. destruct (eq_str name j); cbn [orb length].
  - split; discriminate.
  - exact IH.
Qed.

Lemma occurrences_snoc (name : string) (l : list json) :
  occurrences name (l ++ [JStr name]) = S (occurrences name l).
Proof.
  unfold occurrences. rewrite List.filter_app, length_app.
  cbn [List.filter eq_str]. rewrite String.eqb_refl. cbn [length]. lia.
Qed.

Lemma existsb_snoc (name : string) (l : list json) :
  existsb (eq_str name) (l ++ [JStr name]) = true.
Proof.
  rewrite existsb_app. cbn [existsb eq_str]. rewrite String.eqb_refl.
  rewrite orb_true_r. reflexivity.
Qed.

(** [add_to_index] once the index data is an object with a ["packs"] list. *)
Lemma add_to_index_object (w : world) (name output_dir : string)
    (o : gmap string json) (l : list json) :
  let path := path_join output_dir "index.json" in
  load_index_data w path = Returned (JObj o) ->
  o !! "packs" = Some (JArr l) ->
  add_to_index homeserver_url w name output_dir =
  if existsb (eq_str name) l then (w, Returned ())
  else
    (print
       (json_dump w path
          (JObj (<["packs" := JArr (l ++ [JStr name])]>
                   (with_homeserver homeserver_url o))))
       ("Added " +:+ name +:+ " to " +:+ path),
     Returned ()).
Proof.
  intros path Hload Hpacks. unfold add_to_index. fold path. rewrite Hload.
  cbn [mbind outcome_bind Py.bind contains].
  assert (Hstep :
    (if negb (bool_decide (is_Some (o !! "homeserver_url"))) && truthy homeserver_url
     then setitem (JObj o) "homeserver_url" (JStr (default EmptyString homeserver_url))
     else Returned (JObj o))
    = Returned (JObj (with_homeserver homeserver_url o))).
  { unfold with_homeserver.
    destruct (negb _ && truthy homeserver_url); reflexivity. }
  rewrite Hstep. unfold add_name_to_packs.
  cbn [mbind outcome_bind Py.bind getitem].
  rewrite with_homeserver_packs, Hpacks.
  cbn [mbind outcome_bind Py.bind contains].
  destruct (existsb (eq_str name) l); reflexivity.
Qed.

Lemma load_index_data_absent (w : world) (path : string) :
  files w !! path = None \/ files w !! path = Some NotJson ->
  load_index_data w path = Returned (JObj {["packs" := JArr []]}).
Proof.
  intros [H|H]; unfold load_index_data, json_load; rewrite H; reflexivity.
Qed.

Lemma load_index_data_json (w : world) (path : string) (j : json) :
  files w !! path = Some (JsonText j) -> load_index_data w path = Returned j.
Proof.
  intros H. unfold load_index_data, json_load. rewrite H. reflexivity.
Qed.

(** C8: from an index file that is missing, is not JSON, or lists the pack
    file name at most once, a call of [add_to_index] returns and leaves
    [index.json] with the name exactly once in ["packs"]; a second call with
    the same name returns too and changes nothing: no file is written, nothing
    is printed. *)
Theorem add_to_index_idempotent (w : world) (name output_dir : string) :
  let path := path_join output_dir "index.json" in
  index_usable name w path ->
  exists (w1 : world) (l1 : list json),
    add_to_index homeserver_url w name output_dir = (w1, Returned ()) /\
    packs_of w1 path = Some l1 /\
    occurrences name l1 = 1%nat /\
    add_to_index homeserver_url w1 name output_dir = (w1, Returned ()).
Proof.
  intros path Husable.
  assert (exists o l,
            load_index_data w path = Returned (JObj o) /\
            o !! "packs" = Some (JArr l) /\ (occurrences name l <= 1)%nat /\
            (existsb (eq_str name) l = true -> packs_of w path = Some l))
    as (o & l & Hload & Hpacks & Hocc & Hsame).
  { destruct Husable as [H | [H | (l & Hl & Hocc)]].
    - exists {["packs" := JArr []]}, [].
      split; [apply load_index_data_absent; auto|].
      split; [reflexivity|]. split; [cbn; lia|]. discriminate.
    - exists {["packs" := JArr []]}, [].
      split; [apply load_index_data_absent; auto|].
      split; [reflexivity|]. split; [cbn; lia|]. discriminate.
    - unfold packs_of in Hl.
      destruct (files w !! path) as [[|[| | | | | |o]]|] eqn:Hfile; try discriminate Hl.
      destruct (o !! "packs") as [[| | | | |l'|]|] eqn:Hp; try discriminate Hl.
      injection Hl as ->. exists o, l.
      split; [apply load_index_data_json; exact Hfile|].
      split; [exact Hp|]. split; [exact Hocc|].
      intros _. unfold packs_of. rewrite Hfile, Hp. reflexivity. }
  pose proof (add_to_index_object w name output_dir o l Hload Hpacks) as Hfirst.
  fold path in Hfirst.
  destruct (existsb (eq_str name) l) eqn:Hin.
  - exists w, l. split; [exact Hfirst|]. split; [auto|]. split.
    + assert (occurrences name l <> 0%nat); [|lia].
      intros H0. apply existsb_occurrences in H0. congruence.
    + exact Hfirst.
  - eexists _, (l ++ [JStr name])%list. split; [exact Hfirst|].
    split; [|split].
    + unfold packs_of, print, json_dump. cbn [files].
      rewrite lookup_insert_eq, lookup_insert_eq. reflexivity.
    + rewrite occurrences_snoc. apply existsb_occurrences in Hin. lia.
    + erewrite add_to_index_object.
      * rewrite existsb_snoc. reflexivity.
      * apply load_index_data_json. unfold print, json_dump. cbn [files].
        apply lookup_insert_eq.
      * apply lookup_insert_eq.
Qed.

End IndexFacts.

Section IndexErrors.

Variable homeserver_url : option string.

(** C10, as the code has it: a missing index file and one that is not JSON
    are read as [{"packs": []}]; an index file that holds a JSON value without
    a ["packs"] entry makes [add_to_index] raise and write nothing, and so
    does one whose ["packs"] is not a list, unless Python's [in] finds the
    name in it (a string with the name inside, an object with the name as a
    key). *)
Theorem add_to_index_bad_index (w : world) (name output_dir : string) :
  let path := path_join output_dir "index.json" in
  (files w !! path = None \/ files w !! path = Some NotJson ->
   load_index_data w path = Returned (JObj {["packs" := JArr []]})) /\
  (forall j : json,
     files w !! path = Some (JsonText j) ->
     (lacks_packs j ->
      exists e : string,
        e ∈ index_errors /\
        add_to_index homeserver_url w name output_dir = (w, Raised e)) /\
     (forall (o : gmap string json) (p : json),
        j = JObj o -> o !! "packs" = Some p -> ~ is_list p ->
        contains p name <> Returned true ->
        exists e : string,
          e ∈ index_errors /\
          add_to_index homeserver_url w name output_dir = (w, Raised e))).
Proof.
  intros path. split; [apply load_index_data_absent|].
  intros j Hfile. apply load_index_data_json in Hfile.
  unfold index_errors. split.
  - intros Hlacks. unfold add_to_index. fold path. rewrite Hfile.
    cbn [mbind outcome_bind Py.bind].
    destruct j as [| b | n | x | s | l | o].
    1-4: exists "TypeError"; split; [rewrite !elem_of_cons; tauto | reflexivity].
    + exists "TypeError". split; [rewrite !elem_of_cons; tauto|].
      cbn [contains mbind outcome_bind Py.bind].
      destruct (negb _ && truthy homeserver_url); reflexivity.
    + exists "TypeError". split; [rewrite !elem_of_cons; tauto|].
      cbn [contains mbind outcome_bind Py.bind].
      destruct (negb _ && truthy homeserver_url); reflexivity.
    + exists "KeyError". split; [rewrite !elem_of_cons; tauto|].
      specialize (Hlacks o eq_refl).
      cbn [contains mbind outcome_bind Py.bind].
      destruct (negb _ && truthy homeserver_url);
        cbn [setitem add_name_to_packs mbind outcome_bind Py.bind getitem];
        unfold add_name_to_packs; cbn [mbind outcome_bind Py.bind getitem];
        [rewrite lookup_insert_ne by discriminate|]; rewrite Hlacks; reflexivity.
  - intros o p -> Hp Hnl Hnc. unfold add_to_index. fold path. rewrite Hfile.
    cbn [mbind outcome_bind Py.bind contains].
    assert (Hstep :
      (if negb (bool_decide (is_Some (o !! "homeserver_url"))) && truthy homeserver_url
       then setitem (JObj o) "homeserver_url" (JStr (default EmptyString homeserver_url))
       else Returned (JObj o))
      = Returned (JObj (with_homeserver homeserver_url o))).
    { unfold with_homeserver.
      destruct (negb _ && truthy homeserver_url); reflexivity. }
    rewrite Hstep. unfold add_name_to_packs.
    cbn [mbind outcome_bind Py.bind getitem].
    rewrite with_homeserver_packs, Hp.
    cbn [mbind outcome_bind Py.bind].
    destruct p as [| b | n | x | s | l | o'].
    1-4: exists "TypeError"; split; [rewrite !elem_of_cons; tauto | reflexivity].
    + exists "AttributeError". split; [rewrite !elem_of_cons; tauto|].
      cbn [contains] in *. destruct (str_contains s name); [congruence|].
      reflexivity.
    + exfalso. apply Hnl. exists l. reflexivity.
    + exists "AttributeError". split; [rewrite !elem_of_cons; tauto|].
      cbn [contains] in *. destruct (bool_decide _); [congruence|].
      reflexivity.
Qed.

End IndexErrors.

Lemma add_to_index_bad_index_witness :
  exists e : string,
    add_to_index None (index_holding (JObj ∅)) "a.json" "packs"
    = (index_holding (JObj ∅), Raised e).
Proof.
  destruct (add_to_index_bad_index None (index_holding (JObj ∅)) "a.json" "packs")
    as [_ Hbad].
  destruct (Hbad (JObj ∅)) as [Hlacks _]; [reflexivity|].
  destruct Hlacks as (e & _ & He).
  - intros o Ho. injection Ho as <-. reflexivity.
  - exists e. exact He.
Defined.

(** C10 as stated fails: with ["packs"] the string ["a.json"], adding
    ["a.json"] returns without an error, and without a write. *)
Lemma add_to_index_packs_string_no_error :
  add_to_index None (index_holding (JObj {["packs" := JStr "a.json"]}))
    "a.json" "packs"
  = (index_holding (JObj {["packs" := JStr "a.json"]}), Returned ()).
Proof. vm_compute. reflexivity. Qed.

Lemma add_to_index_idempotent_witness :
  exists (w1 : world) (l1 : list json),
    add_to_index (Some "https://example.org") no_index "a.json" "packs"
      = (w1, Returned ()) /\
    packs_of w1 "packs/index.json" = Some l1 /\
    occurrences "a.json" l1 = 1%nat /\
    add_to_index (Some "https://example.org") w1 "a.json" "packs"
      = (w1, Returned ()).
Proof.
  apply (add_to_index_idempotent (Some "https://example.org") no_index
           "a.json" "packs").
  left. reflexivity.
Defined.

(** ** Asset synchronizer *)

Section SynchronizerFacts.

Variable magic : option (string -> string).
Variable guess_type : string -> option string.
Variable isfile : string -> bool.
Variable read_binary : string -> outcome bytes.
Variable sha256_hexdigest : bytes -> string.
Variable upload : bytes -> string -> string -> outcome string.
Variable LottieAnimation_from_tgs : bytes -> outcome LottieAnimation.
Variable Image_frombytes : string -> Z * Z -> bytes -> outcome PILImage.
Variable Image_save_webp : WebpSave -> outcome bytes.
Variable Image_open_rgba : bytes -> outcome PILImage.
Variable Image_save_as : PILImage -> string -> outcome bytes.

(** C2: for a directory entry that passes the filters (no leading dot, a
    regular file, an image MIME type, readable) and whose fingerprint is a key
    of the previous entries, [upload_sticker] returns the previous entry with
    ["body"] set to the display name of the current file name and every other
    key as it was, and makes no call to the upload collaborator. *)
Theorem upload_sticker_reuses_previous (file directory : string)
    (old_stickers : gmap string (gmap string json))
    (image_data : bytes) (previous : gmap string json) :
  let path := path_join directory file in
  startswith file "." = false ->
  isfile path = true ->
  not_an_image (detect_mime magic guess_type file path) = false ->
  read_binary path = Returned image_data ->
  old_stickers !! fingerprint sha256_hexdigest image_data = Some previous ->
  exists sticker : gmap string json,
    upload_sticker magic guess_type isfile read_binary sha256_hexdigest upload
      LottieAnimation_from_tgs Image_frombytes Image_save_webp Image_open_rgba
      Image_save_as file directory old_stickers
    = ([], Returned (Some sticker)) /\
    sticker !! "body" = Some (JStr (display_name file)) /\
    forall key : string, key <> "body" -> sticker !! key = previous !! key.
Proof.
  intros path Hdot Hfile Hmime Hread Hold.
  exists (<["body" := JStr (display_name file)]> previous).
  split; [|split].
  - unfold upload_sticker. fold path.
    rewrite Hdot, Hfile, Hmime, Hread, Hold. reflexivity.
  - apply lookup_insert_eq.
  - intros key Hkey. apply lookup_insert_ne. congruence.
Qed.

End SynchronizerFacts.

Lemma upload_sticker_reuses_previous_witness :
  exists sticker : gmap string json,
    upload_sticker None (fun _ => Some "image/png") (fun _ => true)
      (fun _ => Returned [Byte.x01]) (fun _ => "H") never_uploads
      (fun _ => Raised "ValueError") (fun _ _ _ => Raised "ValueError")
      (fun _ => Raised "ValueError") (fun _ => Raised "ValueError")
      (fun _ _ => Raised "ValueError")
      "b.png" "pack" {["sha256:H" := previous_entry]}
    = ([], Returned (Some sticker)) /\
    sticker !! "body" = Some (JStr "b") /\
    sticker !! "id" = Some (JStr "sha256:H") /\
    sticker !! "url" = Some (JStr "mxc://example.org/abc").
Proof.
  destruct (upload_sticker_reuses_previous None (fun _ => Some "image/png")
              (fun _ => true) (fun _ => Returned [Byte.x01]) (fun _ => "H")
              never_uploads
              (fun _ => Raised "ValueError") (fun _ _ _ => Raised "ValueError")
              (fun _ => Raised "ValueError") (fun _ => Raised "ValueError")
              (fun _ _ => Raised "ValueError")
              "b.png" "pack" {["sha256:H" := previous_entry]}
              [Byte.x01] previous_entry)
    as (sticker & Hrun & Hbody & Hrest).
  - reflexivity.
  - reflexivity.
  - reflexivity.
  - reflexivity.
  - reflexivity.
  - exists sticker. split; [exact Hrun|]. split; [exact Hbody|].
    split; (rewrite Hrest by discriminate; reflexivity).
Defined.

(** ** More on the format registry *)

(** X1: every tag, [UNKNOWN] included, comes back from its own MIME type and
    from its own extension. *)
Theorem format_round_trip (tag : ImageFormat) :
  from_mime_type (to_mime_type tag) = tag /\
  from_extension (to_extension tag) = tag.
Proof. destruct tag; split; reflexivity. Qed.

(** X2: a MIME type string comes back unchanged from [from_mime_type] then
    [to_mime_type] exactly when it is one of the seven of the table or
    ["image/unknown"]; an extension comes back unchanged exactly when it is
    one of the seven or ["unknown"]. *)
Theorem format_names_normalised :
  (forall m : string,
     to_mime_type (from_mime_type m) = m <->
     m ∈ mime_types \/ m = "image/unknown") /\
  (forall e : string,
     to_extension (from_extension e) = e <->
     e ∈ extensions \/ e = "unknown").
Proof.
  split.
  - intros m. unfold from_mime_type, mime_types.
    case_eqb m; rewrite !elem_of_cons, elem_of_nil; cbn [to_mime_type];
      split; intros H; try tauto; try reflexivity.
    + right. symmetry. exact H.
    + destruct H as [H | ->]; [exfalso; tauto | reflexivity].
  - intros e. unfold from_extension, extensions.
    case_eqb e; rewrite !elem_of_cons, elem_of_nil; cbn [to_extension];
      split; intros H; try tauto; try reflexivity.
    + right. symmetry. exact H.
    + destruct H as [H | ->]; [exfalso; tauto | reflexivity].
Qed.

(** ** More on thumbnails *)

(** X3: on an image of fewer than [2^45] pixels a side, [to_thumbnail]
    gives a width and a height between 0 and 256, neither larger than it
    was, and the scaled side is the floor of the exact proportional size:
    [shorter' * longer <= shorter * 256 < (shorter' + 1) * longer]. *)
Theorem to_thumbnail_aspect (self : GenericImage) :
  0 <= width self < 2 ^ 45 -> 0 <= height self < 2 ^ 45 ->
  exists thumb : GenericImage,
    to_thumbnail self = Returned thumb /\
    0 <= width thumb <= 256 /\ 0 <= height thumb <= 256 /\
    width thumb <= width self /\ height thumb <= height self /\
    (256 < width self -> height self < width self ->
     height thumb * width self <= height self * 256
       < (height thumb + 1) * width self) /\
    (256 < height self -> width self <= height self ->
     width thumb * height self <= width self * 256
       < (width thumb + 1) * height self).
Proof.
  intros Hwidth Hheight.
  pose proof (proj1 Hwidth) as Hw. pose proof (proj1 Hheight) as Hh.
  eexists. split; [apply to_thumbnail_returns; assumption|].
  clear Hwidth Hheight.
  cbn [data width height format]. unfold thumbnail_size.
  set (w := width self) in *. set (h := height self) in *.
  assert (Hq : forall a b, 0 <= a -> 0 < b ->
            0 <= Z.quot (a * 256) b /\
            Z.quot (a * 256) b * b <= a * 256 < (Z.quot (a * 256) b + 1) * b).
  { intros a b Ha Hb. rewrite Z.quot_div_nonneg by lia.
    pose proof (Z.div_pos (a * 256) b ltac:(lia) Hb).
    pose proof (Z.mul_div_le (a * 256) b Hb).
    pose proof (Z.mul_succ_div_gt (a * 256) b Hb). lia. }
  destruct (Z.ltb_spec 256 w), (Z.ltb_spec 256 h); cbn [orb fst snd];
    try destruct (Z.ltb_spec h w); cbn [fst snd].
  all: try (destruct (Hq h w) as [? ?]; [lia | lia |]).
  all: try (destruct (Hq w h) as [? ?]; [lia | lia |]).
  all: repeat split; try lia; try nia.
Qed.

(** X4: an image more than 256 times as high as it is wide (higher than
    256, and less than [2^45] high) gets the thumbnail width 0. *)
Theorem to_thumbnail_collapses_thin (self : GenericImage) :
  0 <= width self -> 256 < height self < 2 ^ 45 ->
  width self * 256 < height self ->
  exists thumb : GenericImage,
    to_thumbnail self = Returned thumb /\
    width thumb = 0 /\ height thumb = 256.
Proof.
  intros Hw [Hh Hbound] Hthin.
  eexists. split; [apply to_thumbnail_returns; lia|].
  cbn [data width height format]. unfold thumbnail_size.
  destruct (Z.ltb_spec 256 (width self)), (Z.ltb_spec 256 (height self));
    cbn [orb]; try lia;
    destruct (Z.ltb_spec (height self) (width self)); try lia; cbn [fst snd].
  all: split; [|reflexivity]; apply Z.quot_small; lia.
Qed.

Lemma to_thumbnail_collapses_thin_witness :
  exists thumb : GenericImage,
    to_thumbnail {| data := []; width := 1; height := 300; format := PNG |}
      = Returned thumb /\
    width thumb = 0 /\ height thumb = 256.
Proof.
  apply (to_thumbnail_collapses_thin
           {| data := []; width := 1; height := 300; format := PNG |});
    cbn; lia.
Defined.

Lemma to_thumbnail_aspect_witness :
  exists thumb : GenericImage,
    to_thumbnail {| data := []; width := 1000; height := 333; format := PNG |}
      = Returned thumb /\
    width thumb = 256 /\ height thumb = 85.
Proof.
  destruct (to_thumbnail_aspect
              {| data := []; width := 1000; height := 333; format := PNG |})
    as (thumb & Hret & _ & _ & _ & _ & Hwide & _); [cbn; lia | cbn; lia |].
  exists thumb. split; [exact Hret|].
  rewrite to_thumbnail_returns in Hret by (cbn; lia). injection Hret as <-.
  split; reflexivity.
Defined.

(** ** More on the transcoder *)

Section TranscoderErrors.

Variable from_tgs : bytes -> outcome LottieAnimation.
Variable frombytes : string -> Z * Z -> bytes -> outcome PILImage.
Variable save_webp : WebpSave -> outcome bytes.

Lemma render_frames_fails animation (before : list Z) (i : Z) (after : list Z)
    (frames acc : list PILImage) (e : string) :
  rendered frombytes animation before frames ->
  frombytes "RGBA" (lottie_animation_get_size animation)
    (lottie_animation_render animation i) = Raised e ->
  render_frames frombytes animation (lottie_animation_get_size animation)
    (before ++ i :: after) acc = Raised e.
Proof.
  intros H Hi. revert acc.
  induction H as [|j img before frames Hj _ IH]; intros acc.
  - cbn [app render_frames]. rewrite Hi. reflexivity.
  - cbn [app render_frames]. rewrite Hj. cbn [mbind outcome_bind Py.bind].
    apply IH.
Qed.

(** X5: the transcoder recovers from nothing: the exception of the loader,
    and the exception of [Image.frombytes] on the first frame that fails, is
    the outcome of [convert_tgs_to_webp], whatever the encoder would do. *)
Theorem convert_tgs_to_webp_propagates (data : bytes) (e : string) :
  (from_tgs data = Raised e ->
   convert_tgs_to_webp from_tgs frombytes save_webp data = Raised e) /\
  (forall animation (i : Z) (frames : list PILImage),
     from_tgs data = Returned animation ->
     0 <= i < lottie_animation_get_totalframe animation ->
     rendered frombytes animation (range i) frames ->
     frombytes "RGBA" (lottie_animation_get_size animation)
       (lottie_animation_render animation i) = Raised e ->
     convert_tgs_to_webp from_tgs frombytes save_webp data = Raised e).
Proof.
  split.
  - intros H. unfold convert_tgs_to_webp. rewrite H. reflexivity.
  - intros animation i frames Hload Hi Hbefore Hfail.
    unfold convert_tgs_to_webp. rewrite Hload. cbn [mbind outcome_bind Py.bind].
    assert (Hsplit : exists after,
              range (lottie_animation_get_totalframe animation)
              = (range i ++ i :: after)%list).
    { unfold range.
      set (n := lottie_animation_get_totalframe animation) in *.
      replace (Z.to_nat n) with (Z.to_nat i + S (Z.to_nat n - Z.to_nat i - 1))%nat by lia.
      rewrite seq_app, map_app. cbn [seq map plus].
      rewrite Z2Nat.id by lia. eexists. reflexivity. }
    destruct Hsplit as [after ->].
    rewrite (render_frames_fails animation (range i) i after frames [] e Hbefore Hfail).
    reflexivity.
Qed.

(** X6: an animation of several frames whose frame rate is 0 makes the
    transcoder raise [ZeroDivisionError], after all frames were rendered. *)
Theorem convert_tgs_to_webp_zero_rate (data : bytes) animation
    (frames : list PILImage) :
  from_tgs data = Returned animation ->
  rendered frombytes animation
    (range (lottie_animation_get_totalframe animation)) frames ->
  1 < lottie_animation_get_totalframe animation ->
  (lottie_animation_get_framerate animation == 0)%Q ->
  convert_tgs_to_webp from_tgs frombytes save_webp data
  = Raised "ZeroDivisionError".
Proof.
  intros Hload Hframes HF HR.
  pose proof (rendered_length _ _ _ _ Hframes) as Hlen.
  unfold convert_tgs_to_webp. rewrite Hload. cbn [mbind outcome_bind Py.bind].
  rewrite (render_frames_rendered _ _ _ frames) by exact Hframes.
  cbn [mbind outcome_bind Py.bind app].
  destruct frames as [|first rest]; [cbn in Hlen; lia|].
  destruct (Z.ltb_spec 1 (Z.of_nat (length (first :: rest)))); [|lia].
  cbn [first_frame mbind outcome_bind Py.bind].
  unfold int_float_truediv.
  destruct (float_of_int_exact 1000) as (v & -> & _); [lia|].
  cbn [Py.bind float_truediv]. apply Qeq_bool_iff in HR. rewrite HR.
  reflexivity.
Qed.

End TranscoderErrors.

Lemma convert_tgs_to_webp_propagates_witness :
  convert_tgs_to_webp (fun _ => Raised "OSError") frombytes_ok save_webp_trace []
    = Raised "OSError" /\
  convert_tgs_to_webp (loads two_frames_60fps) frombytes_short save_webp_trace []
    = Raised "ValueError".
Proof.
  split.
  - destruct (convert_tgs_to_webp_propagates (fun _ => Raised "OSError")
                frombytes_ok save_webp_trace [] "OSError") as [Hload _].
    apply Hload. reflexivity.
  - destruct (convert_tgs_to_webp_propagates (loads two_frames_60fps)
                frombytes_short save_webp_trace [] "ValueError") as [_ Hrender].
    apply (Hrender two_frames_60fps 0 []).
    + reflexivity.
    + cbn. lia.
    + constructor.
    + reflexivity.
Defined.

Lemma convert_tgs_to_webp_zero_rate_witness :
  convert_tgs_to_webp (loads two_frames_rate_0) frombytes_ok save_webp_trace []
  = Raised "ZeroDivisionError".
Proof.
  apply (convert_tgs_to_webp_zero_rate _ _ _ _ two_frames_rate_0
           [blank_frame; blank_frame]).
  - reflexivity.
  - repeat constructor.
  - cbn. lia.
  - reflexivity.
Defined.

(** ** Building an image *)

Section FromBytesFacts.

Variable from_tgs : bytes -> outcome LottieAnimation.
Variable frombytes : string -> Z * Z -> bytes -> outcome PILImage.
Variable save_webp : WebpSave -> outcome bytes.
Variable open_rgba : bytes -> outcome PILImage.
Variable save_as : PILImage -> string -> outcome bytes.

(** X7: an image built by [from_bytes] never has the format TGS: for TGS
    input it is the WEBP re-encoding of what the transcoder returned, for any
    other format the re-encoding of the input in that format; its bytes are
    what [Image.save] gave for the extension of that format and its width and
    height are those of the decoded image. *)
Theorem from_bytes_result (payload : bytes) (fmt : ImageFormat)
    (img : GenericImage) :
  from_bytes from_tgs frombytes save_webp open_rgba save_as payload fmt
    = Returned img ->
  let target := if decide (fmt = TGS) then WEBP else fmt in
  format img = target /\
  format img <> TGS /\
  exists (source : bytes) (image : PILImage),
    (if decide (fmt = TGS)
     then convert_tgs_to_webp from_tgs frombytes save_webp payload
          = Returned source
     else source = payload) /\
    open_rgba source = Returned image /\
    save_as image (to_extension target) = Returned (data img) /\
    (width img, height img) = im_size image.
Proof.
  intros H target. subst target. unfold from_bytes, from_bytes_raster in H.
  destruct (decide (fmt = TGS)) as [->|Hne].
  - destruct (convert_tgs_to_webp _ _ _ payload) as [source|] eqn:Hconv;
      [|discriminate H].
    cbn [mbind outcome_bind Py.bind] in H.
    destruct (open_rgba source) as [image|] eqn:Hopen; [|discriminate H].
    cbn [mbind outcome_bind Py.bind] in H.
    destruct (save_as image _) as [new_file|] eqn:Hsave; [|discriminate H].
    cbn [mbind outcome_bind Py.bind] in H. injection H as <-.
    cbn [format data width height].
    split; [reflexivity|]. split; [discriminate|].
    exists source, image. repeat split; try assumption.
    destruct (im_size image); reflexivity.
  - destruct (open_rgba payload) as [image|] eqn:Hopen; [|discriminate H].
    cbn [mbind outcome_bind Py.bind] in H.
    destruct (save_as image _) as [new_file|] eqn:Hsave; [|discriminate H].
    cbn [mbind outcome_bind Py.bind] in H. injection H as <-.
    cbn [format data width height].
    split; [reflexivity|]. split; [exact Hne|].
    exists payload, image. repeat split; try assumption.
    destruct (im_size image); reflexivity.
Qed.

End FromBytesFacts.

Lemma from_bytes_result_witness :
  exists img : GenericImage,
    from_bytes (loads two_frames_60fps) frombytes_ok save_webp_trace
      opens_2x3 saves_one_byte [] TGS = Returned img /\
    format img = WEBP /\ width img = 2 /\ height img = 3.
Proof.
  assert (Hrun : from_bytes (loads two_frames_60fps) frombytes_ok
                   save_webp_trace opens_2x3 saves_one_byte [] TGS
                 = Returned {| data := [Byte.x2a]; width := 2; height := 3;
                               format := WEBP |})
    by (vm_compute; reflexivity).
  eexists. split; [exact Hrun|].
  destruct (from_bytes_result (loads two_frames_60fps) frombytes_ok
              save_webp_trace opens_2x3 saves_one_byte [] TGS _ Hrun)
    as (Hfmt & _ & _).
  split; [exact Hfmt|]. split; reflexivity.
Defined.

(** ** Pack identifiers *)

Lemma filter_chars_occurs (pred : ascii -> bool) (s : string) (c : ascii) :
  occurs c (filter_chars pred s) = true -> pred c = true /\ occurs c s = true.
Proof.
  induction s as [|a s IH]; [discriminate|].
  cbn [filter_chars occurs]. destruct (pred a) eqn:Ha.
  - cbn [occurs]. destruct (Ascii.eqb_spec a c) as [->|Hne].
    + intros _. split; [exact Ha | reflexivity].
    + cbn [orb]. exact IH.
  - intros H. destruct (IH H) as [Hp Ho]. split; [exact Hp|].
    rewrite Ho. apply orb_true_r.
Qed.

Lemma filter_chars_length (pred : ascii -> bool) (s : string) :
  (String.length (filter_chars pred s) <= String.length s)%nat.
Proof.
  induction s as [|a s IH]; [reflexivity|].
  cbn [filter_chars]. destruct (pred a); cbn [String.length]; lia.
Qed.

Lemma translate_spaces_length (s : string) :
  String.length (translate_spaces s) = String.length s.
Proof.
  induction s as [|a s IH]; [reflexivity|].
  cbn [translate_spaces String.length]. rewrite IH. reflexivity.
Qed.

(** X8: [convert_name] gives a string made of letters, digits and the five
    characters [_-/.#] only, hence without a space, and not longer than the
    name it was given. *)
Theorem convert_name_allowed (name : string) :
  (forall c : ascii,
     occurs c (convert_name name) = true ->
     allowed c = true /\ c <> " "%char) /\
  (String.length (convert_name name) <= String.length name)%nat.
Proof.
  split.
  - intros c H. unfold convert_name in H.
    apply filter_chars_occurs in H as [Hc _]. split; [exact Hc|].
    intros ->. discriminate Hc.
  - unfold convert_name.
    rewrite <- (translate_spaces_length name). apply filter_chars_length.
Qed.

Lemma convert_name_allowed_witness :
  allowed "_" = true /\ occurs "_" (convert_name "my pack!") = true.
Proof.
  destruct (convert_name_allowed "my pack!") as [Hchars _].
  split; [|reflexivity]. apply (Hchars "_"%char). reflexivity.
Defined.

Lemma translate_spaces_app (a b : string) :
  translate_spaces (a +:+ b) = translate_spaces a +:+ translate_spaces b.
Proof.
  induction a as [|c a IH]; [reflexivity|].
  rewrite append_cons. cbn [translate_spaces]. rewrite IH, append_cons.
  reflexivity.
Qed.

Lemma filter_chars_app (pred : ascii -> bool) (a b : string) :
  filter_chars pred (a +:+ b) = filter_chars pred a +:+ filter_chars pred b.
Proof.
  induction a as [|c a IH]; [reflexivity|].
  rewrite append_cons. cbn [filter_chars]. rewrite IH.
  destruct (pred c); [rewrite append_cons|]; reflexivity.
Qed.

(** X9: [convert_name] works character by character: the identifier of a
    concatenation is the concatenation of the identifiers. *)
Theorem convert_name_app (a b : string) :
  convert_name (a +:+ b) = convert_name a +:+ convert_name b.
Proof.
  unfold convert_name. rewrite translate_spaces_app. apply filter_chars_app.
Qed.

(** A name made of allowed characters is its own identifier. *)
Lemma convert_name_clean (name : string) :
  (forall c : ascii, occurs c name = true -> allowed c = true) ->
  convert_name name = name.
Proof.
  unfold convert_name. induction name as [|a name IH]; intros H; [reflexivity|].
  cbn [translate_spaces filter_chars].
  assert (Ha : allowed a = true).
  { apply H. cbn [occurs]. rewrite Ascii.eqb_refl. reflexivity. }
  destruct (Ascii.eqb_spec a " ") as [->|Hne]; [discriminate Ha|].
  fold (allowed a). rewrite Ha. f_equal. apply IH.
  intros c Hc. apply H. cbn [occurs]. rewrite Hc. apply orb_true_r.
Qed.

(** X10: [convert_name] is idempotent: an identifier is its own identifier. *)
Theorem convert_name_idempotent (name : string) :
  convert_name (convert_name name) = convert_name name.
Proof.
  apply convert_name_clean. intros c Hc.
  unfold convert_name in Hc. apply filter_chars_occurs in Hc as [Hc _].
  exact Hc.
Qed.

(** ** More on the asset synchronizer *)

Lemma image_mime_is_not_tgs (mime : string) :
  startswith mime "image/" = true -> from_mime_type mime <> TGS.
Proof.
  intros Hprefix. unfold from_mime_type.
  case_eqb mime; discriminate.
Qed.

Section SynchronizerMore.

Variable magic : option (string -> string).
Variable guess_type : string -> option string.
Variable isfile : string -> bool.
Variable read_binary : string -> outcome bytes.
Variable sha256_hexdigest : bytes -> string.
Variable upload : bytes -> string -> string -> outcome string.
Variable LottieAnimation_from_tgs : bytes -> outcome LottieAnimation.
Variable Image_frombytes : string -> Z * Z -> bytes -> outcome PILImage.
Variable Image_save_webp : WebpSave -> outcome bytes.
Variable Image_open_rgba : bytes -> outcome PILImage.
Variable Image_save_as : PILImage -> string -> outcome bytes.

Local Abbreviation run := (upload_sticker magic guess_type isfile read_binary
  sha256_hexdigest upload LottieAnimation_from_tgs Image_frombytes
  Image_save_webp Image_open_rgba Image_save_as).

(** X11: a file whose name starts with a dot, that is no regular file, whose
    MIME type is missing, empty or not [image/...], or that cannot be read,
    is skipped: [upload_sticker] returns [None], raises nothing and uploads
    nothing. *)
Theorem upload_sticker_skips (file directory : string)
    (old_stickers : gmap string (gmap string json)) :
  let path := path_join directory file in
  startswith file "." = true \/
  isfile path = false \/
  not_an_image (detect_mime magic guess_type file path) = true \/
  (exists e : string, read_binary path = Raised e) ->
  run file directory old_stickers = ([], Returned None).
Proof.
  intros path H. unfold upload_sticker. fold path.
  destruct (startswith file ".") eqn:Hdot; [reflexivity|].
  destruct (isfile path) eqn:Hfile; [|reflexivity]. cbn [negb].
  destruct (not_an_image _) eqn:Hmime; [reflexivity|].
  destruct H as [H | [H | [H | [e H]]]]; try discriminate H.
  rewrite H. reflexivity.
Qed.

(** X12: [upload_sticker] never takes the TGS path of [from_bytes]: a MIME
    type it lets through starts with [image/], which [from_mime_type] never
    maps to TGS. Its calls and its result are the same whatever the rlottie
    loader, [Image.frombytes] and the WebP encoder do. *)
Theorem upload_sticker_never_transcodes (file directory : string)
    (old_stickers : gmap string (gmap string json))
    (from_tgs' : bytes -> outcome LottieAnimation)
    (frombytes' : string -> Z * Z -> bytes -> outcome PILImage)
    (save_webp' : WebpSave -> outcome bytes) :
  run file directory old_stickers =
  upload_sticker magic guess_type isfile read_binary sha256_hexdigest upload
    from_tgs' frombytes' save_webp' Image_open_rgba Image_save_as
    file directory old_stickers.
Proof.
  unfold upload_sticker.
  destruct (startswith file "."); [reflexivity|].
  destruct (negb _); [reflexivity|].
  destruct (detect_mime magic guess_type file _) as [mime|] eqn:Hmime;
    [|reflexivity].
  cbn [not_an_image default]. unfold id.
  destruct (String.eqb mime EmptyString); [reflexivity|]. cbn [orb].
  destruct (startswith mime "image/") eqn:Hprefix; [|reflexivity].
  cbn [negb].
  destruct (read_binary _) as [image_data|]; [|reflexivity].
  destruct (old_stickers !! _); [reflexivity|].
  unfold from_bytes.
  destruct (decide (from_mime_type mime = TGS)) as [Htgs|_]; [|reflexivity].
  exfalso. exact (image_mime_is_not_tgs mime Hprefix Htgs).
Qed.

(** X13: a file that passes the filters and whose fingerprint is not in the
    previous entries is re-encoded and uploaded once, under the name
    [file + "." + extension] and the MIME type of its format; the entry
    returned has the fingerprint as ["id"], the display name as ["body"], the
    locator as ["url"], the decoded width and height, the length of the
    re-encoded bytes as size and, whatever the format, the mimetype
    ["image/png"]; the thumbnail block repeats the same values. *)
Theorem upload_sticker_uploads_new (file directory : string)
    (old_stickers : gmap string (gmap string json))
    (mime : string) (image_data : bytes) (img : GenericImage) (mxc : string) :
  let path := path_join directory file in
  let fmt := from_mime_type mime in
  let call :=
    {| up_data := data img; up_mimetype := to_mime_type fmt;
       up_filename := file +:+ "." +:+ to_extension fmt |} in
  startswith file "." = false ->
  isfile path = true ->
  detect_mime magic guess_type file path = Some mime ->
  not_an_image (Some mime) = false ->
  read_binary path = Returned image_data ->
  old_stickers !! fingerprint sha256_hexdigest image_data = None ->
  from_bytes LottieAnimation_from_tgs Image_frombytes Image_save_webp
    Image_open_rgba Image_save_as image_data fmt = Returned img ->
  upload (up_data call) (up_mimetype call) (up_filename call) = Returned mxc ->
  exists (sticker info thumbnail_info : gmap string json),
    run file directory old_stickers = ([call], Returned (Some sticker)) /\
    sticker !! "id" = Some (JStr (fingerprint sha256_hexdigest image_data)) /\
    sticker !! "body" = Some (JStr (display_name file)) /\
    sticker !! "url" = Some (JStr mxc) /\
    sticker !! "msgtype" = Some (JStr "m.sticker") /\
    sticker !! "info" = Some (JObj info) /\
    info !! "w" = Some (JInt (width img)) /\
    info !! "h" = Some (JInt (height img)) /\
    info !! "size" = Some (JInt (Z.of_nat (length (data img)))) /\
    info !! "mimetype" = Some (JStr "image/png") /\
    info !! "thumbnail_url" = Some (JStr mxc) /\
    info !! "thumbnail_info" = Some (JObj thumbnail_info) /\
    thumbnail_info !! "w" = info !! "w" /\
    thumbnail_info !! "h" = info !! "h" /\
    thumbnail_info !! "size" = info !! "size" /\
    thumbnail_info !! "mimetype" = info !! "mimetype".
Proof.
  intros path fmt call Hdot Hfile Hmime Himage Hread Hold Himg Hup.
  eexists _, _, _. split.
  - unfold upload_sticker. fold path.
    rewrite Hdot, Hfile, Hmime, Himage, Hread, Hold.
    cbn [negb default]. unfold id. fold fmt. rewrite Himg.
    subst call. cbn [up_data up_mimetype up_filename] in *.
    rewrite Hup. reflexivity.
  - unfold make_sticker. repeat split; reflexivity.
Qed.

(** X14: on that path an exception of the decoder or of the upload is not
    caught: when [from_bytes] raises, [upload_sticker] raises the same before
    any upload; when [matrix.upload] raises, it raises the same after that one
    call. *)
Theorem upload_sticker_failures (file directory : string)
    (old_stickers : gmap string (gmap string json))
    (mime : string) (image_data : bytes) (e : string) :
  let path := path_join directory file in
  let fmt := from_mime_type mime in
  startswith file "." = false ->
  isfile path = true ->
  detect_mime magic guess_type file path = Some mime ->
  not_an_image (Some mime) = false ->
  read_binary path = Returned image_data ->
  old_stickers !! fingerprint sha256_hexdigest image_data = None ->
  (from_bytes LottieAnimation_from_tgs Image_frombytes Image_save_webp
     Image_open_rgba Image_save_as image_data fmt = Raised e ->
   run file directory old_stickers = ([], Raised e)) /\
  (forall img : GenericImage,
     let call :=
       {| up_data := data img; up_mimetype := to_mime_type fmt;
          up_filename := file +:+ "." +:+ to_extension fmt |} in
     from_bytes LottieAnimation_from_tgs Image_frombytes Image_save_webp
       Image_open_rgba Image_save_as image_data fmt = Returned img ->
     upload (up_data call) (up_mimetype call) (up_filename call) = Raised e ->
     run file directory old_stickers = ([call], Raised e)).
Proof.
  intros path fmt Hdot Hfile Hmime Himage Hread Hold. split.
  - intros Himg. unfold upload_sticker. fold path.
    rewrite Hdot, Hfile, Hmime, Himage, Hread, Hold.
    cbn [negb default]. unfold id. fold fmt. rewrite Himg. reflexivity.
  - intros img call Himg Hup. unfold upload_sticker. fold path.
    rewrite Hdot, Hfile, Hmime, Himage, Hread, Hold.
    cbn [negb default]. unfold id. fold fmt. rewrite Himg.
    subst call. cbn [up_data up_mimetype up_filename] in *.
    rewrite Hup. reflexivity.
Qed.

(** X15: whatever the file, [upload_sticker] makes at most one upload, and
    only for bytes whose fingerprint is not in the previous entries; an entry
    it returns is never empty and has the display name of the file as
    ["body"]. *)
Theorem upload_sticker_invariants (file directory : string)
    (old_stickers : gmap string (gmap string json))
    (calls : list UploadCall) (result : outcome (option (gmap string json))) :
  run file directory old_stickers = (calls, result) ->
  (length calls <= 1)%nat /\
  (calls <> [] ->
   exists image_data : bytes,
     read_binary (path_join directory file) = Returned image_data /\
     old_stickers !! fingerprint sha256_hexdigest image_data = None) /\
  (forall sticker : gmap string json,
     result = Returned (Some sticker) ->
     sticker !! "body" = Some (JStr (display_name file)) /\
     size sticker <> 0%nat).
Proof.
  unfold upload_sticker.
  destruct (startswith file ".");
    [intros [= <- <-]; repeat split; [cbn; lia | congruence | discriminate..]|].
  destruct (negb _);
    [intros [= <- <-]; repeat split; [cbn; lia | congruence | discriminate..]|].
  destruct (not_an_image _);
    [intros [= <- <-]; repeat split; [cbn; lia | congruence | discriminate..]|].
  destruct (read_binary _) as [image_data|];
    [|intros [= <- <-]; repeat split; [cbn; lia | congruence | discriminate..]].
  assert (Hbody : forall (m : gmap string json) (v : json),
            m !! "body" = Some v -> size m <> 0%nat).
  { intros m v Hm Hsize. apply map_size_empty_inv in Hsize. subst m.
    rewrite lookup_empty in Hm. discriminate Hm. }
  destruct (old_stickers !! _) as [old|] eqn:Hold.
  - intros [= <- <-]. split; [cbn; lia|]. split; [congruence|].
    intros sticker [= <-].
    split; [apply lookup_insert_eq | eapply Hbody; apply lookup_insert_eq].
  - destruct (from_bytes _ _ _ _ _ _ _) as [img|];
      [|intros [= <- <-]; repeat split; [cbn; lia | congruence | discriminate..]].
    destruct (upload _ _ _) as [mxc|]; intros [= <- <-].
    + split; [cbn; lia|]. split; [intros _; eauto|].
      intros sticker [= <-].
      split; [reflexivity | eapply Hbody; reflexivity].
    + split; [cbn; lia|]. split; [intros _; eauto | discriminate].
Qed.

End SynchronizerMore.

Lemma upload_sticker_skips_witness :
  example_run uploads_new opens_2x3 ".hidden.png" ∅ = ([], Returned None).
Proof.
  unfold example_run. apply upload_sticker_skips. left. reflexivity.
Defined.

Lemma upload_sticker_uploads_new_witness :
  exists sticker : gmap string json,
    example_run uploads_new opens_2x3 "01-cat.png" ∅
    = ([ {| up_data := [Byte.x2a]; up_mimetype := "image/png";
            up_filename := "01-cat.png.png" |} ],
       Returned (Some sticker)) /\
    sticker !! "id" = Some (JStr "sha256:H") /\
    sticker !! "body" = Some (JStr "cat").
Proof.
  unfold example_run.
  edestruct (upload_sticker_uploads_new None (fun _ => Some "image/png")
               (fun _ => true) (fun _ => Returned [Byte.x01]) (fun _ => "H")
               uploads_new (loads no_frames) frombytes_ok save_webp_trace
               opens_2x3 saves_one_byte "01-cat.png" "pack" ∅ "image/png"
               [Byte.x01])
    as (sticker & info & thumbnail_info & Hrun & Hid & Hbody & _);
    [reflexivity.. |].
  exists sticker. split; [exact Hrun|]. split; [exact Hid | exact Hbody].
Defined.

Lemma upload_sticker_failures_witness :
  example_run uploads_new opens_nothing "01-cat.png" ∅
    = ([], Raised "UnidentifiedImageError") /\
  example_run never_uploads opens_2x3 "01-cat.png" ∅
    = ([ {| up_data := [Byte.x2a]; up_mimetype := "image/png";
            up_filename := "01-cat.png.png" |} ],
       Raised "UploadError").
Proof.
  unfold example_run. split.
  - edestruct (upload_sticker_failures None (fun _ => Some "image/png")
                 (fun _ => true) (fun _ => Returned [Byte.x01])
                 (fun _ => "H") uploads_new (loads no_frames) frombytes_ok
                 save_webp_trace opens_nothing saves_one_byte
                 "01-cat.png" "pack" ∅ "image/png" [Byte.x01]
                 "UnidentifiedImageError") as [Hdecode _];
      [reflexivity.. |].
    apply Hdecode. reflexivity.
  - edestruct (upload_sticker_failures None (fun _ => Some "image/png")
                 (fun _ => true) (fun _ => Returned [Byte.x01])
                 (fun _ => "H") never_uploads (loads no_frames) frombytes_ok
                 save_webp_trace opens_2x3 saves_one_byte
                 "01-cat.png" "pack" ∅ "image/png" [Byte.x01]
                 "UploadError") as [_ Hupload]; [reflexivity.. |].
    apply (Hupload
             {| data := [Byte.x2a]; width := 2; height := 3; format := PNG |});
      reflexivity.
Defined.

Lemma upload_sticker_invariants_witness :
  (length (example_run uploads_new opens_2x3 "01-cat.png" ∅).1 <= 1)%nat.
Proof.
  unfold example_run.
  eapply (upload_sticker_invariants None (fun _ => Some "image/png")
            (fun _ => true) (fun _ => Returned [Byte.x01]) (fun _ => "H")
            uploads_new (loads no_frames) frombytes_ok save_webp_trace
            opens_2x3 saves_one_byte "01-cat.png" "pack" ∅).
  apply surjective_pairing.
Defined.

(** ** Manifest entries *)

Lemma split_no_sep (sep : ascii) (s : string) :
  occurs sep s = false -> split sep s = [s].
Proof.
  induction s as [|c s IH]; [reflexivity|].
  cbn [occurs split]. intros H. apply orb_false_elim in H as [Hc Hs].
  rewrite Hc, (IH Hs). reflexivity.
Qed.

Lemma split_after_sep (sep : ascii) (a b : string) :
  exists pre : list string,
    pre <> [] /\ split sep (a +:+ String sep b) = (pre ++ split sep b)%list.
Proof.
  induction a as [|c a (pre & Hpre & IH)].
  - exists [EmptyString]. split; [discriminate|].
    rewrite append_empty. cbn [split]. rewrite Ascii.eqb_refl. reflexivity.
  - rewrite append_cons. cbn [split]. rewrite IH.
    destruct (Ascii.eqb c sep).
    + exists (EmptyString :: pre). split; [discriminate | reflexivity].
    + destruct pre as [|x pre]; [contradiction|].
      exists (String c x :: pre). split; [discriminate | reflexivity].
Qed.

Lemma split_not_nil (sep : ascii) (s : string) : split sep s <> [].
Proof.
  destruct s as [|c s]; [discriminate|]. cbn [split].
  destruct (Ascii.eqb c sep); [discriminate|].
  destruct (split sep s); discriminate.
Qed.

Lemma last_segment_after_slash (prefix media : string) :
  occurs "/" media = false ->
  last_segment (prefix +:+ "/" +:+ media) = media.
Proof.
  intros Hmedia. unfold last_segment.
  change ("/" +:+ media) with (String "/" media).
  destruct (split_after_sep "/" prefix media) as (pre & _ & ->).
  rewrite (split_no_sep "/" media Hmedia).
  rewrite last_last. reflexivity.
Qed.

(** X16: the entry [make_sticker] builds for a locator [prefix/media] has
    the id ["scalar-" + media] (what follows the last slash), the locator as
    ["url"] and as thumbnail url, and a thumbnail block with the same width,
    height, size and mimetype as the entry. *)
Theorem make_sticker_shape (prefix media : string) (w h size : Z)
    (body mimetype : string) :
  occurs "/" media = false ->
  let mxc := prefix +:+ "/" +:+ media in
  let sticker := make_sticker mxc w h size body mimetype in
  sticker !! "id" = Some (JStr ("scalar-" +:+ media)) /\
  sticker !! "body" = Some (JStr body) /\
  sticker !! "url" = Some (JStr mxc) /\
  exists info thumbnail_info : gmap string json,
    sticker !! "info" = Some (JObj info) /\
    info !! "thumbnail_url" = Some (JStr mxc) /\
    info !! "thumbnail_info" = Some (JObj thumbnail_info) /\
    thumbnail_info
    = {[ "w" := JInt w; "h" := JInt h; "size" := JInt size;
         "mimetype" := JStr mimetype ]} /\
    forall key : string,
      key ∈ ["w"; "h"; "size"; "mimetype"] ->
      thumbnail_info !! key = info !! key.
Proof.
  intros Hmedia mxc sticker. subst sticker. unfold make_sticker.
  split.
  - rewrite <- (last_segment_after_slash prefix media Hmedia). reflexivity.
  - split; [reflexivity|]. split; [reflexivity|].
    eexists _, _. split; [reflexivity|].
    split; [reflexivity|]. split; [reflexivity|]. split; [reflexivity|].
    intros key Hkey. rewrite !elem_of_cons, elem_of_nil in Hkey.
    destruct Hkey as [-> | [-> | [-> | [-> | []]]]]; reflexivity.
Qed.

Lemma make_sticker_shape_witness :
  make_sticker "mxc://example.org/abc" 10 20 1 "cat" "image/png" !! "id"
  = Some (JStr "scalar-abc").
Proof.
  apply (make_sticker_shape "mxc://example.org" "abc" 10 20 1 "cat" "image/png").
  reflexivity.
Defined.

(** ** More on the index writer *)

Section IndexMore.

Variable homeserver_url : option string.

(** X17: adding a name that the ["packs"] list of the index does not have
    writes [index.json] once: the list with the name appended at its end, the
    other entries of the index as they were, and ["homeserver_url"] as it was
    if the index had one, else the known homeserver URL if there is one.
    No other file changes. *)
Theorem add_to_index_appends (w : world) (name output_dir : string)
    (o : gmap string json) (l : list json) :
  let path := path_join output_dir "index.json" in
  files w !! path = Some (JsonText (JObj o)) ->
  o !! "packs" = Some (JArr l) ->
  existsb (eq_str name) l = false ->
  exists (w' : world) (o' : gmap string json),
    add_to_index homeserver_url w name output_dir = (w', Returned ()) /\
    files w' !! path = Some (JsonText (JObj o')) /\
    o' !! "packs" = Some (JArr (l ++ [JStr name])) /\
    (forall key : string,
       key <> "packs" -> key <> "homeserver_url" -> o' !! key = o !! key) /\
    o' !! "homeserver_url"
    = match o !! "homeserver_url" with
      | Some url => Some url
      | None =>
          if truthy homeserver_url
          then Some (JStr (default EmptyString homeserver_url))
          else None
      end /\
    (forall other : string, other <> path -> files w' !! other = files w !! other) /\
    written w' = (written w ++ [(path, JObj o')])%list.
Proof.
  intros path Hfile Hpacks Hnew.
  pose proof (add_to_index_object homeserver_url w name output_dir o l
                (load_index_data_json w _ _ Hfile) Hpacks) as Hrun.
  fold path in Hrun. rewrite Hnew in Hrun.
  eexists _, _. split; [exact Hrun|].
  unfold print, json_dump. cbn [files written].
  split; [apply lookup_insert_eq|].
  split; [apply lookup_insert_eq|].
  split; [|split; [|split]].
  - intros key Hk1 Hk2. rewrite lookup_insert_ne by congruence.
    unfold with_homeserver.
    destruct (negb _ && truthy homeserver_url); [|reflexivity].
    apply lookup_insert_ne. congruence.
  - rewrite lookup_insert_ne by discriminate. unfold with_homeserver.
    destruct (o !! "homeserver_url") as [url|] eqn:Hurl.
    + rewrite bool_decide_eq_true_2 by eauto. cbn [negb andb]. exact Hurl.
    + rewrite bool_decide_eq_false_2 by (intros [? ?]; discriminate).
      cbn [negb andb]. destruct (truthy homeserver_url).
      * apply lookup_insert_eq.
      * exact Hurl.
  - intros other Hother. apply lookup_insert_ne. congruence.
  - reflexivity.
Qed.

(** X18: when the name is already in ["packs"], [add_to_index] writes and
    prints nothing, also when the index has no ["homeserver_url"] and one is
    known: the URL is recorded only together with a new name. *)
Theorem add_to_index_present (w : world) (name output_dir : string)
    (o : gmap string json) (l : list json) :
  let path := path_join output_dir "index.json" in
  files w !! path = Some (JsonText (JObj o)) ->
  o !! "packs" = Some (JArr l) ->
  existsb (eq_str name) l = true ->
  add_to_index homeserver_url w name output_dir = (w, Returned ()).
Proof.
  intros path Hfile Hpacks Hin.
  pose proof (add_to_index_object homeserver_url w name output_dir o l
                (load_index_data_json w _ _ Hfile) Hpacks) as Hrun.
  fold path in Hrun. rewrite Hin in Hrun. exact Hrun.
Qed.

(** X19: two names added one after the other, both new and different, end
    up at the end of ["packs"] in the order of the calls. *)
Theorem add_to_index_twice (w : world) (first second output_dir : string)
    (o : gmap string json) (l : list json) :
  let path := path_join output_dir "index.json" in
  files w !! path = Some (JsonText (JObj o)) ->
  o !! "packs" = Some (JArr l) ->
  existsb (eq_str first) l = false ->
  existsb (eq_str second) l = false ->
  first <> second ->
  exists w1 w2 : world,
    add_to_index homeserver_url w first output_dir = (w1, Returned ()) /\
    add_to_index homeserver_url w1 second output_dir = (w2, Returned ()) /\
    packs_of w2 path = Some (l ++ [JStr first; JStr second])%list.
Proof.
  intros path Hfile Hpacks Hfirst Hsecond Hne.
  pose proof (add_to_index_object homeserver_url w first output_dir o l
                (load_index_data_json w _ _ Hfile) Hpacks) as Hrun1.
  fold path in Hrun1. rewrite Hfirst in Hrun1.
  eexists _, _. split; [exact Hrun1|].
  match type of Hrun1 with _ = (?x, _) => set (w1 := x) in * end.
  assert (Hfile1 : files w1 !! path
            = Some (JsonText (JObj (<["packs" := JArr (l ++ [JStr first])]>
                                      (with_homeserver homeserver_url o))))).
  { unfold w1, print, json_dump. cbn [files]. apply lookup_insert_eq. }
  pose proof (add_to_index_object homeserver_url w1 second output_dir _
                (l ++ [JStr first])
                (load_index_data_json w1 _ _ Hfile1)
                (lookup_insert_eq _ _ _)) as Hrun2.
  fold path in Hrun2.
  assert (Hnew : existsb (eq_str second) (l ++ [JStr first]) = false).
  { rewrite existsb_app, Hsecond. cbn [existsb eq_str orb].
    rewrite orb_false_r. apply String.eqb_neq. exact Hne. }
  rewrite Hnew in Hrun2. split; [exact Hrun2|].
  unfold packs_of, print, json_dump. cbn [files].
  rewrite lookup_insert_eq, lookup_insert_eq, <- app_assoc. reflexivity.
Qed.

End IndexMore.

Lemma add_to_index_appends_witness :
  exists w' : world,
    add_to_index (Some "https://example.org")
      (index_holding (JObj {["packs" := JArr [JStr "a.json"]]}))
      "b.json" "packs" = (w', Returned ()) /\
    packs_of w' "packs/index.json" = Some [JStr "a.json"; JStr "b.json"].
Proof.
  destruct (add_to_index_appends (Some "https://example.org")
              (index_holding (JObj {["packs" := JArr [JStr "a.json"]]}))
              "b.json" "packs" {["packs" := JArr [JStr "a.json"]]}
              [JStr "a.json"])
    as (w' & o' & Hrun & Hfile & Hpacks & _); [reflexivity.. |].
  exists w'. split; [exact Hrun|].
  unfold packs_of. change (path_join "packs" "index.json") with "packs/index.json" in Hfile.
  rewrite Hfile, Hpacks. reflexivity.
Defined.

Lemma add_to_index_present_witness :
  add_to_index (Some "https://example.org")
    (index_holding (JObj {["packs" := JArr [JStr "a.json"]]}))
    "a.json" "packs"
  = (index_holding (JObj {["packs" := JArr [JStr "a.json"]]}), Returned ()).
Proof.
  apply (add_to_index_present (Some "https://example.org") _ "a.json" "packs"
           {["packs" := JArr [JStr "a.json"]]} [JStr "a.json"]);
    reflexivity.
Defined.

Lemma add_to_index_twice_witness :
  exists w1 w2 : world,
    add_to_index None (index_holding (JObj {["packs" := JArr []]}))
      "a.json" "packs" = (w1, Returned ()) /\
    add_to_index None w1 "b.json" "packs" = (w2, Returned ()) /\
    packs_of w2 "packs/index.json" = Some [JStr "a.json"; JStr "b.json"].
Proof.
  apply (add_to_index_twice None
           (index_holding (JObj {["packs" := JArr []]}))
           "a.json" "b.json" "packs" {["packs" := JArr []]} []);
    try reflexivity.
  discriminate.
Defined.

(** ** The previous manifest *)

Lemma index_by_id_spec (items : list json)
    (acc m : gmap string (gmap string json)) :
  index_by_id items acc = Returned m ->
  (forall (k : string) (o : gmap string json),
     m !! k = Some o ->
     acc !! k = Some o \/ (JObj o ∈ items /\ o !! "id" = Some (JStr k))) /\
  (forall k : string,
     is_Some (acc !! k) \/ (exists item, item ∈ items /\ has_id k item) ->
     is_Some (m !! k)).
Proof.
  revert acc. induction items as [|item items IH]; intros acc H.
  - injection H as <-. split.
    + intros k o Hk. left. exact Hk.
    + intros k [Hk | (item & Hin & _)]; [exact Hk|].
      apply elem_of_nil in Hin. contradiction.
  - cbn [index_by_id] in H.
    destruct item as [| b | n | x | s | l | o]; try discriminate H.
    cbn [getitem] in H. destruct (o !! "id") as [key|] eqn:Hid; [|discriminate H].
    cbn [mbind outcome_bind Py.bind] in H.
    assert (Hskip : (forall k, key <> JStr k) ->
              index_by_id items acc = Returned m ->
              (forall k o', m !! k = Some o' ->
                 acc !! k = Some o' \/
                 (JObj o' ∈ JObj o :: items /\ o' !! "id" = Some (JStr k))) /\
              (forall k,
                 is_Some (acc !! k) \/
                 (exists item, item ∈ JObj o :: items /\ has_id k item) ->
                 is_Some (m !! k))).
    { intros Hkey Hrest. destruct (IH _ Hrest) as [IH1 IH2]. split.
      - intros k o' Hk. destruct (IH1 k o' Hk) as [? | [? ?]]; [left; assumption|].
        right. split; [apply list_elem_of_further; assumption | assumption].
      - intros k [Hk | (item & Hin & Hhas)]; [apply IH2; left; exact Hk|].
        apply elem_of_cons in Hin as [-> | Hin].
        + destruct Hhas as (o' & [= <-] & Ho'). rewrite Hid in Ho'.
          injection Ho' as ->. exfalso. exact (Hkey k eq_refl).
        + apply IH2. right. exists item. split; assumption. }
    destruct key as [| b | n | x | k0 | l | o0]; try discriminate H;
      try (apply Hskip; [discriminate | exact H]).
    destruct (IH _ H) as [IH1 IH2]. split.
    + intros k o' Hk. destruct (IH1 k o' Hk) as [Hacc | [Hin Ho']].
      * destruct (decide (k0 = k)) as [->|Hne].
        -- rewrite lookup_insert_eq in Hacc. injection Hacc as <-.
           right. split; [apply list_elem_of_here | exact Hid].
        -- rewrite lookup_insert_ne in Hacc by exact Hne. left. exact Hacc.
      * right. split; [apply list_elem_of_further; exact Hin | exact Ho'].
    + intros k [Hk | (item & Hin & Hhas)].
      * apply IH2. left. destruct (decide (k0 = k)) as [->|Hne].
        -- rewrite lookup_insert_eq. eauto.
        -- rewrite lookup_insert_ne by exact Hne. exact Hk.
      * apply elem_of_cons in Hin as [-> | Hin].
        -- destruct Hhas as (o' & [= <-] & Ho'). rewrite Hid in Ho'.
           injection Ho' as <-. apply IH2. left.
           rewrite lookup_insert_eq. eauto.
        -- apply IH2. right. exists item. split; assumption.
Qed.

Lemma index_by_id_returns (items : list json)
    (acc : gmap string (gmap string json)) :
  Forall (fun item => exists k, has_id k item) items ->
  exists m, index_by_id items acc = Returned m.
Proof.
  intros H. revert acc. induction H as [|item items (k & o & -> & Hid) _ IH];
    intros acc.
  - eexists. reflexivity.
  - cbn [index_by_id getitem]. rewrite Hid. cbn [mbind outcome_bind Py.bind].
    apply IH.
Qed.

(** X20: the lookup built from the ["stickers"] list of a manifest has an
    entry under a key exactly when an object of the list has that string as
    ["id"]; the entry under a key is an object of the list, and its ["id"] is
    the key. *)
Theorem old_stickers_of_lookup (l : list json)
    (old_stickers : gmap string (gmap string json)) :
  old_stickers_of (JArr l) = Returned old_stickers ->
  keyed_by_id old_stickers /\
  (forall (k : string) (o : gmap string json),
     old_stickers !! k = Some o -> JObj o ∈ l) /\
  (forall k : string,
     is_Some (old_stickers !! k) <-> exists item, item ∈ l /\ has_id k item).
Proof.
  cbn [old_stickers_of]. intros H.
  destruct (index_by_id_spec l ∅ old_stickers H) as [H1 H2].
  split; [|split].
  - intros k o Hk. destruct (H1 k o Hk) as [Hempty | [_ Hid]]; [|exact Hid].
    rewrite lookup_empty in Hempty. discriminate Hempty.
  - intros k o Hk. destruct (H1 k o Hk) as [Hempty | [Hin _]]; [|exact Hin].
    rewrite lookup_empty in Hempty. discriminate Hempty.
  - intros k. split.
    + intros [o Hk]. destruct (H1 k o Hk) as [Hempty | [Hin Hid]].
      * rewrite lookup_empty in Hempty. discriminate Hempty.
      * exists (JObj o). split; [exact Hin|]. exists o. split; [reflexivity | exact Hid].
    + intros Hitem. apply H2. right. exact Hitem.
Qed.

Lemma old_stickers_of_lookup_witness :
  keyed_by_id {["sha256:H" := previous_entry]}.
Proof.
  apply (old_stickers_of_lookup [JObj previous_entry]). reflexivity.
Defined.

(** X21: a ["stickers"] value that cannot be used makes the load fail: an
    item that is no object gives [TypeError], an object without ["id"]
    [KeyError], and a list or an object as id [TypeError]. *)
Theorem index_by_id_rejects (before : list json) (item : json)
    (after : list json) :
  Forall (fun item => exists k, has_id k item) before ->
  ((forall o : gmap string json, item <> JObj o) ->
   old_stickers_of (JArr (before ++ item :: after)) = Raised "TypeError") /\
  (forall o : gmap string json,
     item = JObj o -> o !! "id" = None ->
     old_stickers_of (JArr (before ++ item :: after)) = Raised "KeyError") /\
  (forall (o : gmap string json) (key : json),
     item = JObj o -> o !! "id" = Some key ->
     (exists l, key = JArr l) \/ (exists o', key = JObj o') ->
     old_stickers_of (JArr (before ++ item :: after)) = Raised "TypeError").
Proof.
  intros Hbefore. cbn [old_stickers_of].
  assert (Hpre : forall acc, exists acc',
            index_by_id (before ++ item :: after) acc
            = index_by_id (item :: after) acc').
  { induction Hbefore as [|x before (k & o & -> & Hid) _ IH]; intros acc.
    - exists acc. reflexivity.
    - cbn [app index_by_id getitem]. rewrite Hid.
      cbn [mbind outcome_bind Py.bind]. apply IH. }
  destruct (Hpre ∅) as [acc' ->]. cbn [index_by_id]. split; [|split].
  - intros Hno. destruct item; try reflexivity. exfalso. eapply Hno. reflexivity.
  - intros o -> Hid. cbn [getitem]. rewrite Hid. reflexivity.
  - intros o key -> Hid Hkey. cbn [getitem]. rewrite Hid.
    destruct Hkey as [[l ->] | [o' ->]]; reflexivity.
Qed.

Lemma index_by_id_rejects_witness :
  old_stickers_of (JArr [JObj previous_entry; JStr "cat"]) = Raised "TypeError".
Proof.
  destruct (index_by_id_rejects [JObj previous_entry] (JStr "cat") [])
    as [Hno _].
  - constructor; [|constructor]. exists "sha256:H", previous_entry.
    split; reflexivity.
  - apply Hno. discriminate.
Defined.

(** ** The loop over the directory *)

Section LoopFacts.

Variable magic : option (string -> string).
Variable guess_type : string -> option string.
Variable isfile : string -> bool.
Variable read_binary : string -> outcome bytes.
Variable sha256_hexdigest : bytes -> string.
Variable upload : bytes -> string -> string -> outcome string.
Variable LottieAnimation_from_tgs : bytes -> outcome LottieAnimation.
Variable Image_frombytes : string -> Z * Z -> bytes -> outcome PILImage.
Variable Image_save_webp : WebpSave -> outcome bytes.
Variable Image_open_rgba : bytes -> outcome PILImage.
Variable Image_save_as : PILImage -> string -> outcome bytes.

Local Abbreviation run := (upload_sticker magic guess_type isfile read_binary
  sha256_hexdigest upload LottieAnimation_from_tgs Image_frombytes
  Image_save_webp Image_open_rgba Image_save_as).

Local Abbreviation loop := (upload_all magic guess_type isfile read_binary
  sha256_hexdigest upload LottieAnimation_from_tgs Image_frombytes
  Image_save_webp Image_open_rgba Image_save_as).

Local Abbreviation passes := (reaches magic guess_type isfile read_binary).

Lemma upload_sticker_found (file directory : string)
    (old_stickers : gmap string (gmap string json))
    (image_data : bytes) (o : gmap string json) :
  passes file directory image_data ->
  old_stickers !! fingerprint sha256_hexdigest image_data = Some o ->
  run file directory old_stickers
  = ([], Returned (Some (<["body" := JStr (display_name file)]> o))).
Proof.
  intros (Hdot & Hfile & Hmime & Hread) Hold. unfold upload_sticker.
  rewrite Hdot, Hfile, Hmime, Hread, Hold. reflexivity.
Qed.

Lemma insert_body_not_empty (o : gmap string json) (v : json) :
  size (<["body" := v]> o) <> 0%nat.
Proof.
  intros Hsize. apply map_size_empty_inv in Hsize.
  apply (f_equal (fun m => m !! "body")) in Hsize.
  rewrite lookup_insert_eq, lookup_empty in Hsize. discriminate Hsize.
Qed.

(** A call that returns either skipped the file, whatever the previous
    entries, or reached the fingerprint step and returns an entry with a
    body; for previous entries keyed by id, the id is the fingerprint. *)
Lemma upload_sticker_returned (file directory : string)
    (old_stickers : gmap string (gmap string json))
    (calls : list UploadCall) (r : option (gmap string json)) :
  run file directory old_stickers = (calls, Returned r) ->
  (r = None /\ calls = [] /\
   forall old2, run file directory old2 = ([], Returned None)) \/
  (exists (s : gmap string json) (image_data : bytes),
     r = Some s /\ passes file directory image_data /\
     s !! "body" = Some (JStr (display_name file)) /\
     size s <> 0%nat /\
     (keyed_by_id old_stickers ->
      s !! "id" = Some (JStr (fingerprint sha256_hexdigest image_data)))).
Proof.
  unfold upload_sticker, reaches.
  destruct (startswith file "."); [intros [= <- <-]; left; auto|].
  destruct (isfile _); cbn [negb]; [|intros [= <- <-]; left; auto].
  destruct (not_an_image _); [intros [= <- <-]; left; auto|].
  destruct (read_binary _) as [image_data|]; [|intros [= <- <-]; left; auto].
  destruct (old_stickers !! _) as [o|] eqn:Hold.
  - intros [= <- <-]. right. eexists _, image_data.
    split; [reflexivity|]. split; [auto|].
    split; [apply lookup_insert_eq|]. split; [apply insert_body_not_empty|].
    intros Hkeyed. rewrite lookup_insert_ne by discriminate.
    exact (Hkeyed _ _ Hold).
  - destruct (from_bytes _ _ _ _ _ _ _) as [img|]; [|discriminate].
    destruct (upload _ _ _) as [mxc|]; [|discriminate].
    intros [= <- <-]. right. eexists _, image_data.
    split; [reflexivity|]. split; [auto|].
    split; [reflexivity|]. split.
    + intros Hsize. apply map_size_empty_inv in Hsize.
      apply (f_equal (fun m => m !! "id")) in Hsize.
      rewrite lookup_insert_eq, lookup_empty in Hsize. discriminate Hsize.
    + intros _. apply lookup_insert_eq.
Qed.

Lemma loop_collected (files : list string) (directory : string)
    (old_stickers : gmap string (gmap string json))
    (acc : list json) (calls : list UploadCall) (stickers : list json) :
  loop files directory old_stickers acc = (calls, Returned stickers) ->
  exists news : list json,
    stickers = (acc ++ news)%list /\
    collected (fun file => run file directory old_stickers) files calls news.
Proof.
  revert acc calls. induction files as [|file files IH]; intros acc calls.
  - cbn [upload_all]. intros [= <- <-]. exists [].
    split; [rewrite app_nil_r; reflexivity | constructor].
  - cbn [upload_all].
    destruct (run file directory old_stickers) as [calls1 [r|e]] eqn:Hstep;
      [|discriminate].
    destruct (upload_sticker_returned _ _ _ _ _ Hstep)
      as [(-> & _ & _) | (s & image_data & -> & _ & _ & Hsize & _)].
    + destruct (loop files directory old_stickers acc)
        as [more result] eqn:Hrest.
      intros [= <- ->]. destruct (IH _ _ Hrest) as (news & -> & Hnews).
      exists news. split; [reflexivity|].
      apply collected_skip; assumption.
    + apply Nat.eqb_neq in Hsize. rewrite Hsize.
      destruct (loop files directory old_stickers (acc ++ [JObj s]))
        as [more result] eqn:Hrest.
      intros [= <- ->]. destruct (IH _ _ Hrest) as (news & -> & Hnews).
      exists (JObj s :: news). split; [rewrite <- app_assoc; reflexivity|].
      apply collected_keep; assumption.
Qed.

Lemma collected_loop (files : list string) (directory : string)
    (old_stickers : gmap string (gmap string json))
    (acc : list json) (calls : list UploadCall) (news : list json) :
  collected (fun file => run file directory old_stickers) files calls news ->
  loop files directory old_stickers acc = (calls, Returned (acc ++ news)%list).
Proof.
  intros H. revert acc.
  induction H as [|file files calls more news Hstep _ IH
                  |file files calls more s news Hstep _ IH]; intros acc.
  - cbn [upload_all]. rewrite app_nil_r. reflexivity.
  - cbn [upload_all]. rewrite Hstep, IH. reflexivity.
  - cbn [upload_all]. rewrite Hstep.
    destruct (upload_sticker_returned _ _ _ _ _ Hstep)
      as [(Hnone & _) | (s' & image_data & [= <-] & _ & _ & Hsize & _)];
      [discriminate Hnone|].
    apply Nat.eqb_neq in Hsize. rewrite Hsize, IH, <- app_assoc. reflexivity.
Qed.

(** X22: the loop of [main] returns exactly when every call of
    [upload_sticker] returns; it then made the upload calls of the files in
    order, and collected after the entries it started with the entry of each
    file that has one, in the order of the files. *)
Theorem upload_all_collects (files : list string) (directory : string)
    (old_stickers : gmap string (gmap string json))
    (acc : list json) (calls : list UploadCall) (stickers : list json) :
  loop files directory old_stickers acc = (calls, Returned stickers) <->
  exists news : list json,
    stickers = (acc ++ news)%list /\
    collected (fun file => run file directory old_stickers) files calls news.
Proof.
  split.
  - apply loop_collected.
  - intros (news & -> & H). apply collected_loop. exact H.
Qed.

(** X23: the first file on which [upload_sticker] raises ends the loop with
    that exception: the files after it are not looked at, the entries
    collected so far are dropped, the uploads already made stay made. *)
Theorem upload_all_aborts (before : list string) (file : string)
    (after : list string) (directory : string)
    (old_stickers : gmap string (gmap string json)) (acc : list json)
    (calls failed : list UploadCall) (news : list json) (e : string) :
  collected (fun file => run file directory old_stickers) before calls news ->
  run file directory old_stickers = (failed, Raised e) ->
  loop (before ++ file :: after) directory old_stickers acc
  = ((calls ++ failed)%list, Raised e).
Proof.
  intros H Hfail. revert acc.
  induction H as [|f files calls more news Hstep _ IH
                  |f files calls more s news Hstep _ IH]; intros acc.
  - cbn [app upload_all]. rewrite Hfail. reflexivity.
  - cbn [app upload_all]. rewrite Hstep, IH, <- app_assoc. reflexivity.
  - cbn [app upload_all]. rewrite Hstep.
    destruct (Nat.eqb (size s) 0); rewrite IH, <- app_assoc; reflexivity.
Qed.

Lemma collected_have_ids (files : list string) (directory : string)
    (old_stickers : gmap string (gmap string json))
    (calls : list UploadCall) (news : list json) :
  keyed_by_id old_stickers ->
  collected (fun file => run file directory old_stickers) files calls news ->
  Forall (fun item => exists k, has_id k item) news.
Proof.
  intros Hkeyed H.
  induction H as [|file files calls more news Hstep _ IH
                  |file files calls more s news Hstep _ IH].
  - constructor.
  - exact IH.
  - constructor; [|exact IH].
    destruct (upload_sticker_returned _ _ _ _ _ Hstep)
      as [(Hnone & _) | (s' & image_data & [= <-] & _ & _ & _ & Hid)];
      [discriminate Hnone|].
    eexists _, s. split; [reflexivity | exact (Hid Hkeyed)].
Qed.

Lemma collected_again (files : list string) (directory : string)
    (old_stickers old2 : gmap string (gmap string json))
    (calls : list UploadCall) (news : list json) :
  keyed_by_id old_stickers -> keyed_by_id old2 ->
  collected (fun file => run file directory old_stickers) files calls news ->
  (forall (item : json) (k : string),
     item ∈ news -> has_id k item -> is_Some (old2 !! k)) ->
  exists news2 : list json,
    collected (fun file => run file directory old2) files [] news2 /\
    Forall2 same_id_body news news2.
Proof.
  intros Hkeyed Hkeyed2 H.
  induction H as [|file files calls more news Hstep _ IH
                  |file files calls more s news Hstep _ IH]; intros Hcover.
  - exists []. split; constructor.
  - destruct (IH Hcover) as (news2 & Hnews2 & Hsame).
    exists news2. split; [|exact Hsame].
    destruct (upload_sticker_returned _ _ _ _ _ Hstep)
      as [(_ & _ & Hskip) | (s' & image_data & Hsome & _)];
      [|discriminate Hsome].
    apply (collected_skip _ file files [] [] news2 (Hskip old2) Hnews2).
  - destruct IH as (news2 & Hnews2 & Hsame).
    { intros item k Hin. apply Hcover. apply list_elem_of_further. exact Hin. }
    destruct (upload_sticker_returned _ _ _ _ _ Hstep)
      as [(Hnone & _) | (s' & image_data & [= <-] & Hpass & Hbody & _ & Hid)];
      [discriminate Hnone|].
    specialize (Hid Hkeyed).
    destruct (Hcover (JObj s) (fingerprint sha256_hexdigest image_data))
      as [o Ho].
    { apply list_elem_of_here. }
    { exists s. split; [reflexivity | exact Hid]. }
    exists (JObj (<["body" := JStr (display_name file)]> o) :: news2). split.
    + apply (collected_keep _ file files [] [] _ news2
               (upload_sticker_found _ _ old2 _ _ Hpass Ho) Hnews2).
    + constructor; [|exact Hsame].
      exists s, (<["body" := JStr (display_name file)]> o),
        (fingerprint sha256_hexdigest image_data).
      split; [reflexivity|]. split; [reflexivity|]. split; [exact Hid|].
      split.
      * rewrite lookup_insert_ne by discriminate. exact (Hkeyed2 _ _ Ho).
      * rewrite lookup_insert_eq. exact Hbody.
Qed.

(** X24: a second pass over the same files, with the entries of a first
    pass that went through as previous manifest, uploads nothing: the list it
    collected can be indexed by id, and the loop with that lookup makes no
    upload call and collects as many entries, with the same ids and bodies
    in the same order. *)
Theorem upload_all_again (files : list string) (directory : string)
    (old_stickers : gmap string (gmap string json))
    (calls : list UploadCall) (stickers : list json) :
  keyed_by_id old_stickers ->
  loop files directory old_stickers [] = (calls, Returned stickers) ->
  exists (old2 : gmap string (gmap string json)) (stickers2 : list json),
    old_stickers_of (JArr stickers) = Returned old2 /\
    loop files directory old2 [] = ([], Returned stickers2) /\
    Forall2 same_id_body stickers stickers2.
Proof.
  intros Hkeyed Hrun.
  destruct (loop_collected _ _ _ _ _ _ Hrun) as (news & -> & Hnews).
  cbn [app] in *.
  pose proof (collected_have_ids _ _ _ _ _ Hkeyed Hnews) as Hids.
  destruct (index_by_id_returns news ∅ Hids) as [old2 Hold2].
  destruct (index_by_id_spec news ∅ old2 Hold2) as [Hfrom Hcover].
  assert (Hkeyed2 : keyed_by_id old2).
  { intros k o Hk. destruct (Hfrom k o Hk) as [Hempty | [_ Hid]]; [|exact Hid].
    rewrite lookup_empty in Hempty. discriminate Hempty. }
  destruct (collected_again _ _ _ old2 _ _ Hkeyed Hkeyed2 Hnews)
    as (news2 & Hnews2 & Hsame).
  { intros item k Hin Hhas. apply Hcover. right. exists item. split; assumption. }
  exists old2, news2. split; [exact Hold2|]. split; [|exact Hsame].
  apply (collected_loop _ _ _ [] _ _ Hnews2).
Qed.

End LoopFacts.

Lemma upload_all_aborts_witness :
  example_loop never_uploads ["a.png"; "b.png"] ∅
  = ([ {| up_data := [Byte.x2a]; up_mimetype := "image/png";
          up_filename := "a.png.png" |} ],
     Raised "UploadError").
Proof.
  unfold example_loop.
  apply (upload_all_aborts None (fun _ => Some "image/png") (fun _ => true)
           (fun _ => Returned [Byte.x01]) (fun _ => "H") never_uploads
           (loads no_frames) frombytes_ok save_webp_trace opens_2x3
           saves_one_byte [] "a.png" ["b.png"] "pack" ∅ [] [] _ []).
  - constructor.
  - reflexivity.
Defined.

Lemma upload_all_again_witness :
  exists (old2 : gmap string (gmap string json)) (stickers stickers2 : list json),
    (example_loop uploads_new ["a.png"; "b.png"] ∅).2 = Returned stickers /\
    length (example_loop uploads_new ["a.png"; "b.png"] ∅).1 = 2%nat /\
    old_stickers_of (JArr stickers) = Returned old2 /\
    example_loop uploads_new ["a.png"; "b.png"] old2 = ([], Returned stickers2) /\
    Forall2 same_id_body stickers stickers2.
Proof.
  unfold example_loop.
  destruct (upload_all None (fun _ => Some "image/png") (fun _ => true)
              (fun _ => Returned [Byte.x01]) (fun _ => "H") uploads_new
              (loads no_frames) frombytes_ok save_webp_trace opens_2x3
              saves_one_byte ["a.png"; "b.png"] "pack" ∅ [])
    as [calls result] eqn:Hrun.
  assert (Hresult : exists stickers, result = Returned stickers /\ length calls = 2%nat).
  { vm_compute in Hrun. injection Hrun as <- <-. eexists. split; reflexivity. }
  destruct Hresult as (stickers & -> & Hcalls).
  destruct (upload_all_again None (fun _ => Some "image/png") (fun _ => true)
              (fun _ => Returned [Byte.x01]) (fun _ => "H") uploads_new
              (loads no_frames) frombytes_ok save_webp_trace opens_2x3
              saves_one_byte ["a.png"; "b.png"] "pack" ∅ calls stickers)
    as (old2 & stickers2 & Hold2 & Hrun2 & Hsame).
  - intros k o Hk. rewrite lookup_empty in Hk. discriminate Hk.
  - exact Hrun.
  - exists old2, stickers, stickers2. cbn [fst snd]. auto.
Defined.

(** ** The whole run *)

Section MainFacts.

Variable magic : option (string -> string).
Variable guess_type : string -> option string.
Variable isfile : string -> bool.
Variable read_binary : string -> outcome bytes.
Variable sha256_hexdigest : bytes -> string.
Variable upload : bytes -> string -> string -> outcome string.
Variable LottieAnimation_from_tgs : bytes -> outcome LottieAnimation.
Variable Image_frombytes : string -> Z * Z -> bytes -> outcome PILImage.
Variable Image_save_webp : WebpSave -> outcome bytes.
Variable Image_open_rgba : bytes -> outcome PILImage.
Variable Image_save_as : PILImage -> string -> outcome bytes.
Variable load_config : string -> outcome (option string).
Variable abspath : string -> string.
Variable listdir : string -> outcome (list string).
Variable repr : json -> string.

Local Abbreviation loop := (upload_all magic guess_type isfile read_binary
  sha256_hexdigest upload LottieAnimation_from_tgs Image_frombytes
  Image_save_webp Image_open_rgba Image_save_as).

Local Abbreviation run_main := (main magic guess_type isfile read_binary
  sha256_hexdigest upload LottieAnimation_from_tgs Image_frombytes
  Image_save_webp Image_open_rgba Image_save_as load_config abspath listdir
  repr).

(** X25: a [pack.json] that is not JSON ends the run with [JSONDecodeError]
    (only a missing file is caught): nothing is listed, uploaded, written or
    printed. *)
Theorem main_corrupt_manifest (w : world) (args : Args)
    (homeserver_url : option string) :
  load_config (args_config args) = Returned homeserver_url ->
  files w !! path_join (args_path args) "pack.json" = Some NotJson ->
  run_main w args = (w, [], Raised "JSONDecodeError").
Proof.
  intros Hconfig Hfile. unfold main, load_pack, json_load.
  rewrite Hconfig, Hfile. reflexivity.
Qed.

(** X26: without a [pack.json], when the directory can be listed and every
    file goes through, the run writes one file, [pack.json], with the title
    [--title] or else the directory name, the id [--id] or else
    [convert_name] of the directory name, and the entries of the files in
    sorted order; it made the upload calls of the loop, and returns. *)
Theorem main_fresh_manifest (w : world) (args : Args)
    (homeserver_url : option string) (names : list string)
    (calls : list UploadCall) (stickers : list json) :
  let meta_path := path_join (args_path args) "pack.json" in
  let dirname := basename (abspath (args_path args)) in
  let pack : gmap string json :=
    {[ "title" := JStr (or_else (args_title args) dirname);
       "id" := JStr (or_else (args_id args) (convert_name dirname));
       "stickers" := JArr stickers ]} in
  load_config (args_config args) = Returned homeserver_url ->
  files w !! meta_path = None ->
  listdir (args_path args) = Returned names ->
  loop (sorted names) (args_path args) ∅ [] = (calls, Returned stickers) ->
  truthy (args_add_to_index args) = false ->
  exists w' : world,
    run_main w args = (w', calls, Returned ()) /\
    files w' = <[meta_path := JsonText (JObj pack)]> (files w) /\
    written w' = (written w ++ [(meta_path, JObj pack)])%list.
Proof.
  intros meta_path dirname pack Hconfig Hfile Hlist Hloop Hindex.
  eexists. split.
  - unfold main, load_pack, json_load, copy_to_index. fold meta_path.
    rewrite Hconfig, Hfile. cbn [String.eqb Ascii.eqb Bool.eqb].
    rewrite Hlist, Hloop. cbn [setitem]. rewrite Hindex. reflexivity.
  - unfold print, json_dump. cbn [files written stdout].
    subst pack. fold dirname. repeat split; reflexivity.
Qed.

(** X27: with a [pack.json] that is an object whose ["stickers"] list can be
    indexed, the run writes back the same object with ["stickers"] replaced
    by the entries of this run: the title, the id and any other key are as
    they were, and [--title] and [--id] are not used. *)
Theorem main_existing_manifest (w : world) (args : Args)
    (homeserver_url : option string) (p : gmap string json) (l : list json)
    (old_stickers : gmap string (gmap string json)) (names : list string)
    (calls : list UploadCall) (stickers : list json) :
  let meta_path := path_join (args_path args) "pack.json" in
  load_config (args_config args) = Returned homeserver_url ->
  files w !! meta_path = Some (JsonText (JObj p)) ->
  p !! "stickers" = Some (JArr l) ->
  old_stickers_of (JArr l) = Returned old_stickers ->
  listdir (args_path args) = Returned names ->
  loop (sorted names) (args_path args) old_stickers []
    = (calls, Returned stickers) ->
  truthy (args_add_to_index args) = false ->
  exists (w' : world) (pack : gmap string json),
    run_main w args = (w', calls, Returned ()) /\
    files w' = <[meta_path := JsonText (JObj pack)]> (files w) /\
    pack !! "stickers" = Some (JArr stickers) /\
    (forall key : string, key <> "stickers" -> pack !! key = p !! key) /\
    written w' = (written w ++ [(meta_path, JObj pack)])%list.
Proof.
  intros meta_path Hconfig Hfile Hstickers Hold Hlist Hloop Hindex.
  eexists _, (<["stickers" := JArr stickers]> p). split.
  - unfold main, load_pack, json_load, copy_to_index. fold meta_path.
    rewrite Hconfig, Hfile. cbn [getitem mbind outcome_bind Py.bind].
    rewrite Hstickers. cbn [mbind outcome_bind Py.bind]. rewrite Hold.
    cbn [mbind outcome_bind Py.bind setitem].
    rewrite Hlist, Hloop. cbn [setitem]. rewrite Hindex.
    rewrite insert_insert_eq. reflexivity.
  - unfold print, json_dump. cbn [files written stdout].
    split; [reflexivity|]. split; [apply lookup_insert_eq|].
    split; [|reflexivity].
    intros key Hkey. apply lookup_insert_ne. congruence.
Qed.

(** X28: when a file makes [upload_sticker] raise, the run ends with that
    exception and no file is written: [pack.json] is as it was, whatever
    was uploaded before. *)
Theorem main_upload_failure (w : world) (args : Args)
    (homeserver_url : option string) (names : list string)
    (calls : list UploadCall) (e : string)
    (w0 : world) (pack : json)
    (old_stickers : gmap string (gmap string json)) :
  load_config (args_config args) = Returned homeserver_url ->
  load_pack abspath w args = (w0, Returned (pack, old_stickers)) ->
  listdir (args_path args) = Returned names ->
  loop (sorted names) (args_path args) old_stickers [] = (calls, Raised e) ->
  exists w' : world,
    run_main w args = (w', calls, Raised e) /\
    files w' = files w /\ written w' = written w.
Proof.
  intros Hconfig Hload Hlist Hloop. exists w0. split.
  - unfold main. rewrite Hconfig, Hload, Hlist, Hloop. reflexivity.
  - unfold load_pack in Hload.
    destruct (json_load w _) as [loaded|e'].
    + injection Hload as <- _. split; reflexivity.
    + destruct (String.eqb e' "FileNotFoundError"); injection Hload as <-;
        split; reflexivity.
Qed.

End MainFacts.

(** ** The copy into the picker directory *)

Section CopyFacts.

Variable repr : json -> string.
Variable homeserver_url : option string.


End CopyFacts.

Lemma main_corrupt_manifest_witness :
  example_main uploads_new lists_b_a (manifest_holding NotJson)
  = (manifest_holding NotJson, [], Raised "JSONDecodeError").
Proof.
  unfold example_main.
  apply (main_corrupt_manifest None (fun _ => Some "image/png") (fun _ => true)
           (fun _ => Returned [Byte.x01]) (fun _ => "H") uploads_new
           (loads no_frames) frombytes_ok save_webp_trace opens_2x3
           saves_one_byte (fun _ => Returned None)
           (fun p => "/home/user/" +:+ p) lists_b_a (fun _ => "?")
           (manifest_holding NotJson) example_args None);
    reflexivity.
Defined.

Lemma main_fresh_manifest_witness :
  exists (w' : world) (calls : list UploadCall) (pack : gmap string json),
    example_main uploads_new lists_b_a no_index = (w', calls, Returned ()) /\
    length calls = 2%nat /\
    files w' !! "my pack/pack.json" = Some (JsonText (JObj pack)) /\
    pack !! "title" = Some (JStr "my pack") /\
    pack !! "id" = Some (JStr "my_pack").
Proof.
  unfold example_main.
  edestruct (main_fresh_manifest None (fun _ => Some "image/png") (fun _ => true)
               (fun _ => Returned [Byte.x01]) (fun _ => "H") uploads_new
               (loads no_frames) frombytes_ok save_webp_trace opens_2x3
               saves_one_byte (fun _ => Returned None)
               (fun p => "/home/user/" +:+ p) lists_b_a (fun _ => "?")
               no_index example_args None ["b.png"; "a.png"])
    as (w' & Hrun & Hfiles & _); [reflexivity.. |].
  eexists w', _, _. split; [exact Hrun|]. split; [reflexivity|].
  rewrite Hfiles. split; [apply lookup_insert_eq|]. split; reflexivity.
Defined.

Lemma main_existing_manifest_witness :
  exists (w' : world) (calls : list UploadCall) (pack : gmap string json),
    example_main uploads_new lists_b_a
      (manifest_holding (JsonText (JObj titled_pack)))
    = (w', calls, Returned ()) /\
    files w' !! "my pack/pack.json" = Some (JsonText (JObj pack)) /\
    pack !! "title" = Some (JStr "Cats") /\
    pack !! "id" = Some (JStr "cats").
Proof.
  unfold example_main.
  edestruct (main_existing_manifest None (fun _ => Some "image/png")
               (fun _ => true) (fun _ => Returned [Byte.x01]) (fun _ => "H")
               uploads_new (loads no_frames) frombytes_ok save_webp_trace
               opens_2x3 saves_one_byte (fun _ => Returned None)
               (fun p => "/home/user/" +:+ p) lists_b_a (fun _ => "?")
               (manifest_holding (JsonText (JObj titled_pack))) example_args
               None titled_pack [] ∅ ["b.png"; "a.png"])
    as (w' & pack & Hrun & Hfiles & _ & Hkeys & _); [reflexivity.. |].
  eexists w', _, pack. split; [exact Hrun|].
  rewrite Hfiles. split; [apply lookup_insert_eq|].
  split; (rewrite Hkeys by discriminate; reflexivity).
Defined.

Lemma main_upload_failure_witness :
  exists (w' : world) (calls : list UploadCall),
    example_main never_uploads lists_b_a no_index
      = (w', calls, Raised "UploadError") /\
    files w' = ∅ /\ written w' = [].
Proof.
  unfold example_main.
  edestruct (main_upload_failure None (fun _ => Some "image/png")
               (fun _ => true) (fun _ => Returned [Byte.x01]) (fun _ => "H")
               never_uploads (loads no_frames) frombytes_ok save_webp_trace
               opens_2x3 saves_one_byte (fun _ => Returned None)
               (fun p => "/home/user/" +:+ p) lists_b_a (fun _ => "?")
               no_index example_args None ["b.png"; "a.png"])
    as (w' & Hrun & Hfiles & Hwritten); [reflexivity.. |].
  eexists w', _. split; [exact Hrun|]. split; assumption.
Defined.


(** ** The order of the files *)

Lemma ascii_compare_eq (a b : ascii) : Ascii.compare a b = Eq -> a = b.
Proof.
  unfold Ascii.compare. intros H. apply N.compare_eq in H.
  rewrite <- (ascii_N_embedding a), <- (ascii_N_embedding b), H. reflexivity.
Qed.

Lemma ascii_compare_lt_trans (a b c : ascii) :
  Ascii.compare a b = Lt -> Ascii.compare b c = Lt -> Ascii.compare a c = Lt.
Proof.
  unfold Ascii.compare. rewrite !N.compare_lt_iff. lia.
Qed.

Lemma string_leb_trans (s1 s2 s3 : string) :
  String.leb s1 s2 = true -> String.leb s2 s3 = true -> String.leb s1 s3 = true.
Proof.
  unfold String.leb. revert s2 s3.
  induction s1 as [|a s1 IH]; intros [|b s2] [|c s3]; cbn [String.compare];
    try reflexivity; try discriminate.
  destruct (Ascii.compare a b) eqn:Hab; try discriminate;
    destruct (Ascii.compare b c) eqn:Hbc; try discriminate.
  - apply ascii_compare_eq in Hab, Hbc. subst.
    assert (Hcc : Ascii.compare c c = Eq).
    { unfold Ascii.compare. apply N.compare_refl. }
    rewrite Hcc. apply IH.
  - apply ascii_compare_eq in Hab. subst. rewrite Hbc. reflexivity.
  - apply ascii_compare_eq in Hbc. subst. rewrite Hab. reflexivity.
  - rewrite (ascii_compare_lt_trans a b c Hab Hbc). reflexivity.
Qed.

Lemma string_leb_antisym (s1 s2 : string) :
  String.leb s1 s2 = true -> String.leb s2 s1 = true -> s1 = s2.
Proof.
  unfold String.leb. intros H12 H21.
  apply String.compare_eq_iff.
  rewrite String.compare_antisym in H21.
  destruct (String.compare s1 s2); [reflexivity | discriminate H21 | discriminate H12].
Qed.

Lemma insert_sorted_elem (x y : string) (l : list string) :
  y ∈ insert_sorted x l <-> y = x \/ y ∈ l.
Proof.
  induction l as [|z l IH]; cbn [insert_sorted].
  - rewrite elem_of_cons. reflexivity.
  - destruct (String.leb x z).
    + rewrite elem_of_cons. reflexivity.
    + rewrite !elem_of_cons, IH. tauto.
Qed.

Lemma insert_sorted_ordered (x : string) (l : list string) :
  ordered l -> ordered (insert_sorted x l).
Proof.
  induction l as [|z l IH]; cbn [insert_sorted ordered].
  - intros _. split; [|exact I]. intros y Hy. apply elem_of_nil in Hy. contradiction.
  - intros [Hz Hl]. destruct (String.leb x z) eqn:Hxz; cbn [ordered].
    + split; [|split; assumption].
      intros y Hy. apply elem_of_cons in Hy as [-> | Hy]; [exact Hxz|].
      apply (string_leb_trans x z y Hxz). apply Hz. exact Hy.
    + split; [|apply IH; exact Hl].
      intros y Hy. apply insert_sorted_elem in Hy as [-> | Hy].
      * destruct (String.leb_total x z) as [H | H]; [congruence | exact H].
      * apply Hz. exact Hy.
Qed.

Lemma sorted_ordered (l : list string) : ordered (sorted l).
Proof.
  induction l as [|x l IH]; [exact I|].
  apply insert_sorted_ordered. exact IH.
Qed.

Lemma insert_sorted_comm (x y : string) (l : list string) :
  ordered l ->
  insert_sorted x (insert_sorted y l) = insert_sorted y (insert_sorted x l).
Proof.
  induction l as [|z l IH]; cbn [insert_sorted ordered].
  - intros _. destruct (String.leb x y) eqn:Hxy, (String.leb y x) eqn:Hyx;
      try reflexivity.
    + rewrite (string_leb_antisym x y Hxy Hyx). reflexivity.
    + destruct (String.leb_total x y); congruence.
  - intros [Hz Hl].
    destruct (String.leb y z) eqn:Hyz, (String.leb x z) eqn:Hxz;
      cbn [insert_sorted]; rewrite ?Hyz, ?Hxz.
    + destruct (String.leb x y) eqn:Hxy, (String.leb y x) eqn:Hyx;
        rewrite ?Hxz, ?Hyz; try reflexivity.
      * rewrite (string_leb_antisym x y Hxy Hyx). reflexivity.
      * destruct (String.leb_total x y); congruence.
    + destruct (String.leb x y) eqn:Hxy.
      * rewrite (string_leb_trans x y z Hxy Hyz) in Hxz. discriminate Hxz.
      * rewrite ?Hxz, ?Hyz. reflexivity.
    + destruct (String.leb y x) eqn:Hyx.
      * rewrite (string_leb_trans y x z Hyx Hxz) in Hyz. discriminate Hyz.
      * rewrite ?Hxz, ?Hyz. reflexivity.
    + rewrite (IH Hl). reflexivity.
Qed.

Lemma sorted_permutation (l1 l2 : list string) :
  l1 ≡ₚ l2 -> sorted l1 = sorted l2.
Proof.
  induction 1 as [|x l1 l2 _ IH|x y l|l1 l2 l3 _ IH1 _ IH2].
  - reflexivity.
  - cbn [sorted foldr]. fold (sorted l1). fold (sorted l2). rewrite IH. reflexivity.
  - cbn [sorted foldr]. fold (sorted l).
    apply insert_sorted_comm. apply sorted_ordered.
  - rewrite IH1. exact IH2.
Qed.

Lemma insert_sorted_perm (x : string) (l : list string) :
  insert_sorted x l ≡ₚ x :: l.
Proof.
  induction l as [|z l IH]; [reflexivity|]. cbn [insert_sorted].
  destruct (String.leb x z); [reflexivity|].
  rewrite IH. apply Permutation_swap.
Qed.

Lemma sorted_is_permutation (l : list string) : sorted l ≡ₚ l.
Proof.
  induction l as [|x l IH]; [reflexivity|].
  cbn [sorted foldr]. fold (sorted l). rewrite insert_sorted_perm, IH.
  reflexivity.
Qed.

Section ListingOrder.

Variable magic : option (string -> string).
Variable guess_type : string -> option string.
Variable isfile : string -> bool.
Variable read_binary : string -> outcome bytes.
Variable sha256_hexdigest : bytes -> string.
Variable upload : bytes -> string -> string -> outcome string.
Variable LottieAnimation_from_tgs : bytes -> outcome LottieAnimation.
Variable Image_frombytes : string -> Z * Z -> bytes -> outcome PILImage.
Variable Image_save_webp : WebpSave -> outcome bytes.
Variable Image_open_rgba : bytes -> outcome PILImage.
Variable Image_save_as : PILImage -> string -> outcome bytes.
Variable load_config : string -> outcome (option string).
Variable abspath : string -> string.
Variable repr : json -> string.

(** X29: the run does not depend on the order in which [os.listdir] gives
    the names: two listings of the same names lead to the same uploads in the
    same order, the same files and the same outcome; the files are processed
    in ascending order of their names. *)
Theorem main_listing_order (listdir1 listdir2 : string -> outcome (list string))
    (w : world) (args : Args) (names1 names2 : list string) :
  listdir1 (args_path args) = Returned names1 ->
  listdir2 (args_path args) = Returned names2 ->
  names1 ≡ₚ names2 ->
  ordered (sorted names1) /\
  sorted names1 ≡ₚ names1 /\
  main magic guess_type isfile read_binary sha256_hexdigest upload
    LottieAnimation_from_tgs Image_frombytes Image_save_webp Image_open_rgba
    Image_save_as load_config abspath listdir1 repr w args
  = main magic guess_type isfile read_binary sha256_hexdigest upload
      LottieAnimation_from_tgs Image_frombytes Image_save_webp Image_open_rgba
      Image_save_as load_config abspath listdir2 repr w args.
Proof.
  intros H1 H2 Hperm.
  split; [apply sorted_ordered|]. split; [apply sorted_is_permutation|].
  unfold main. rewrite H1, H2, (sorted_permutation _ _ Hperm). reflexivity.
Qed.

End ListingOrder.

Lemma main_listing_order_witness :
  example_main uploads_new lists_b_a no_index
  = example_main uploads_new lists_a_b no_index.
Proof.
  unfold example_main.
  apply (main_listing_order None (fun _ => Some "image/png") (fun _ => true)
           (fun _ => Returned [Byte.x01]) (fun _ => "H") uploads_new
           (loads no_frames) frombytes_ok save_webp_trace opens_2x3
           saves_one_byte (fun _ => Returned None)
           (fun p => "/home/user/" +:+ p) (fun _ => "?")
           lists_b_a lists_a_b no_index example_args
           ["b.png"; "a.png"] ["a.png"; "b.png"]).
  - reflexivity.
  - reflexivity.
  - apply Permutation_swap.
Defined.
